(** * venus: the state-type-gen generator and the gateway proxy structs

    A shallow embedding of [venus-devtool/state-type-gen] (the generator that
    scans the go-state-types packages and renders alias declarations) and of
    [venus-shared/api/gateway/v1/proxy_gen.go] (the forwarding proxy
    structs), with the properties the specification states about them. *)

From Stdlib Require Import Structures.OrderedTypeEx.
From stdpp Require Import gmap strings list sorting pretty.

Local Open Scope string_scope.
Local Open Scope list_scope.
Local Open Scope stdpp_scope.

(** ** Byte-wise string order

    Go compares strings with [<] byte by byte; [String.ltb] is that order on
    Rocq's strings of 8-bit characters. *)

Module StrOrder.

Definition less (a b : string) : bool := String.ltb a b.

(** [notAfter less a b]: [b] is not strictly before [a]; the order a sorted
    slice satisfies between an element and any later one. *)
Definition notAfter {A} (lt : A → A → bool) : relation A :=
  λ a b, lt b a = false.

Global Instance notAfter_dec {A} (lt : A → A → bool) a b :
  Decision (notAfter lt a b).
Proof. unfold notAfter. apply _. Defined.

End StrOrder.

(** ** Outcomes of Go code: a value, a returned [error], or a panic *)

Definition error := string.

Inductive result (A : Type) : Type :=
| Ok (a : A)
| Error (e : error)
| Panic.
Arguments Ok {A} a.
Arguments Error {A} e.
Arguments Panic {A}.

Global Instance result_ret : MRet result := λ A a, Ok a.
Global Instance result_bind : MBind result := λ A B k r,
  match r with
  | Ok a => k a
  | Error e => Error e
  | Panic => Panic
  end.

(** [l[i]]: indexing a slice panics out of range. *)
Definition index {A} (l : list A) (i : nat) : result A :=
  match l !! i with
  | Some x => Ok x
  | None => Panic
  end.

(** A loop [for _, x := range l { a = step(a, x) }] whose body may fail. *)
Fixpoint foldM {A B} (step : A → B → result A) (a : A) (l : list B) : result A :=
  match l with
  | [] => Ok a
  | x :: l' => a' ← step a x; foldM step a' l'
  end.

(** [sort.Slice(x, less)]: the library sorts the slice in place; the result
    is an ordered rearrangement of the slice.  It is modelled by a merge sort
    on the order "not strictly after" ([sort_Slice_unique] below shows that
    no other ordered rearrangement of strings exists, so the choice of the
    algorithm is immaterial). *)
Definition sort_Slice {A} (lt : A → A → bool) (x : list A) : list A :=
  merge_sort (StrOrder.notAfter lt) x.

(** [strings.Contains(s, substr)]. *)
Definition strings_Contains (s substr : string) : bool :=
  match String.index 0 substr s with
  | Some _ => true
  | None => false
  end.

(** ** The syntax trees [ast.Walk] traverses *)

(** The dynamic type of [TypeSpec.Type], as far as [Visit] inspects it. *)
Inductive Expr : Type :=
| StructType
| Ident
| OtherExpr.

Global Instance Expr_eq_dec : EqDecision Expr.
Proof. solve_decision. Defined.

Inductive FieldList : Type :=
| mkFieldList.

Global Instance FieldList_eq_dec : EqDecision FieldList.
Proof. solve_decision. Defined.

(** The nodes [Visit] distinguishes by a type assertion; every other node of
    [go/ast] is [OtherNode]. *)
Inductive Node : Type :=
| TypeSpec (Name : string) (Type_ : Expr)
| FuncDecl (Name : string) (Recv : option FieldList)
| ValueSpec (Names : list string)
| OtherNode.

Global Instance Node_eq_dec : EqDecision Node.
Proof. solve_decision. Defined.

(** A syntax tree: a node with its children in the order [ast.Walk] visits
    them. *)
#[warnings="-register-all"]
Inductive Tree : Type :=
| mkTree (node : Node) (children : list Tree).

(** [ast.Package]: the files of one package clause, by file name. *)
Record Package : Type := mkPackage {
  Files : gmap string Tree
}.

(** The file system: path to contents. *)
Abbreviation FS := (gmap string string).

(** The order in which a [range] over a Go map yields its entries is not
    specified and changes from run to run.  A schedule fixes it for one run:
    [range_of site m] is the order at the [range] statement [site]. *)
Record Schedule : Type := mkSchedule {
  range_of : ∀ A : Type, list string → gmap string A → list (string * A)
}.
Arguments range_of _ {A} _ _.

Definition valid_schedule (sch : Schedule) : Prop :=
  ∀ (A : Type) (site : list string) (m : gmap string A),
    range_of sch site m ≡ₚ map_to_list m.

(** The schedule that ranges over every map in [map_to_list] order. *)
Definition canonical_schedule : Schedule :=
  {| range_of := λ A _ m, map_to_list m |}.

(** The schedule that ranges in the reverse of that order. *)
Definition reversed_schedule : Schedule :=
  {| range_of := λ A _ m, reverse (map_to_list m) |}.

(** ** The generator: [state-type-gen] *)

Module Gen.

Definition prePath : string := "github.com/filecoin-project/go-state-types/builtin".

Record pendingPkg : Type := mkPendingPkg {
  name : string;
  path : string;
  ver : Z
}.

Definition skips : gset string :=
  {[ "State"; "MinerInfo"; "ConstructState"; "Partition"; "Deadline" ]}.

Definition skipFuncs : gset string := {[ "ConstructState" ]}.

(** One row of a rename-table entry. *)
Record aliasRow : Type := mkAliasRow {
  row_pkgName : string;
  newName : string
}.

Definition alias : gmap string (list aliasRow) :=
  {[ "WithdrawBalanceParams" :=
       [ {| row_pkgName := "market"; newName := "MarketWithdrawBalanceParams" |};
         {| row_pkgName := "miner"; newName := "MinerWithdrawBalanceParams" |} ] ]}.

Definition expectVals : gset string := {[ "NoAllocationID" ]}.

(** [filter]: the directory-entry filter handed to [parser.ParseDir]. *)
Definition filter (fi_Name : string) : bool :=
  if strings_Contains fi_Name "cbor_gen.go" then false
  else if strings_Contains fi_Name "_test.go" then false
  else if strings_Contains fi_Name "invariants.go" then false
  else if strings_Contains fi_Name "methods.go" then false
  else true.

Record metaVisitor : Type := mkMetaVisitor {
  pkgName : string;
  f : list string;
  t : list string;
  v : list string
}.

(** The text [writeFile] assembles, one constructor per [Fprintf] or
    [Fprintln] call and its arguments. *)
Inductive Line : Type :=
| LHeader
| LImportOpen
| LImport (pkg_path : string)
| LImportClose
| LGroup (pkg : string)
| LType (new_name pkg typ : string)
| LVar (fn pkg : string)
| LConst (val pkg : string)
| LGroupEnd.

Global Instance Line_eq_dec : EqDecision Line.
Proof. solve_decision. Defined.

Definition newline : string := String (Ascii.ascii_of_nat 10) EmptyString.
Definition dquote : string := String (Ascii.ascii_of_nat 34) EmptyString.

(** The bytes each call appends to the buffer. *)
Definition render_line (l : Line) : string :=
  match l with
  | LHeader =>
      "// Code generated by github.com/filecoin-project/venus/venus-devtool/state-type-gen. DO NOT EDIT."
      +:+ newline +:+ "package " +:+ "types" +:+ newline +:+ newline
  | LImportOpen => "import (" +:+ newline
  | LImport p => dquote +:+ p +:+ dquote +:+ newline
  | LImportClose => ")" +:+ newline +:+ newline
  | LGroup p => "////////// " +:+ p +:+ " //////////" +:+ newline
  | LType n p ty => "type " +:+ n +:+ " = " +:+ p +:+ "." +:+ ty +:+ newline
  | LVar fn p => "var " +:+ fn +:+ " = " +:+ p +:+ "." +:+ fn +:+ newline
  | LConst c p => "const " +:+ c +:+ " = " +:+ p +:+ "." +:+ c +:+ newline
  | LGroupEnd => newline +:+ newline
  end.

(** The lines that declare a name. *)
Definition is_declaration (l : Line) : Prop :=
  match l with
  | LType _ _ _ | LVar _ _ | LConst _ _ => True
  | _ => False
  end.

Definition buffer_of (ls : list Line) : string :=
  foldr (λ l acc, render_line l +:+ acc) "" ls.

Section Generator.

(** *** What the generator takes from outside the repository *)

(** [ast.Ident.IsExported] of [go/ast]. *)
Variable IsExported : string → bool.

(** [actors.Version8] and [actors.LatestVersion] of [venus-shared/actors]. *)
Variable Version8 : Z.
Variable LatestVersion : Z.

(** [util.FindPackageLocation], [parser.ParseDir] and [util.FmtFile]: each
    returns a value and an [error], as in Go. *)
Variable FindPackageLocation : FS → string → string * option error.
Variable ParseDir : FS → string → (string → bool) → gmap string Package * option error.
Variable FmtFile : string → string → string * option error.

(** [os.WriteFile]: when it fails it returns the error and leaves the file
    system in some state; when it succeeds the named file holds the data. *)
Variable WriteFile_failure : FS → string → string → option (error * FS).

Definition os_WriteFile (fs : FS) (dst data : string) : FS * result () :=
  match WriteFile_failure fs dst data with
  | Some (err, fs') => (fs', Error err)
  | None => (<[dst := data]> fs, Ok ())
  end.

(** [fmt.Sprintf("%s/v%v/%s", prePath, ver, name)]. *)
Definition pkg_path (ver : Z) (pkgName : string) : string :=
  prePath +:+ "/v" +:+ pretty ver +:+ "/" +:+ pkgName.

Definition pendingPkgs : gmap string pendingPkg :=
  let pkgs : gmap string pendingPkg := ∅ in
  let list_ := ["market"; "miner"; "verifreg"] in
  let pkgs := <["paych" := {| name := "paych"; ver := Version8;
                              path := pkg_path Version8 "paych" |}]> pkgs in
  foldl (λ pkgs pkgName,
           <[pkgName := {| name := pkgName; ver := LatestVersion;
                           path := pkg_path LatestVersion pkgName |}]> pkgs)
        pkgs list_.

(** The entries of [pendingPkgs] in the order of their names. *)
Definition pkgs_by_name : list pendingPkg :=
  [ {| name := "market"; ver := LatestVersion; path := pkg_path LatestVersion "market" |};
    {| name := "miner"; ver := LatestVersion; path := pkg_path LatestVersion "miner" |};
    {| name := "paych"; ver := Version8; path := pkg_path Version8 "paych" |};
    {| name := "verifreg"; ver := LatestVersion; path := pkg_path LatestVersion "verifreg" |} ].

(** The import path [pendingPkgs] holds for the name of a pending package. *)
Definition path_of (pkgName : string) : string :=
  pkg_path (if decide (pkgName = "paych") then Version8 else LatestVersion) pkgName.

(** *** [toList] *)

Definition toList (sch : Schedule) (pkgs : gmap string pendingPkg) : list pendingPkg :=
  let list_ := foldl (λ list_ pkg, list_ ++ [pkg.2]) [] (range_of sch ["toList"] pkgs) in
  sort_Slice (λ a b, StrOrder.less (name a) (name b)) list_.

(** *** [metaVisitor.Visit] *)

Definition Visit (vis : metaVisitor) (node : option Node) : result metaVisitor :=
  match node with
  | Some (TypeSpec Name Type_) =>
      if negb (IsExported Name) then Ok vis
      else
        let ok := match Type_ with StructType => true | _ => false end in
        let ok3 := match Type_ with Ident => true | _ => false end in
        if negb (bool_decide (Name ∈ skips)) && (ok || ok3)
        then Ok {| pkgName := pkgName vis; f := f vis; t := t vis ++ [Name]; v := v vis |}
        else Ok vis
  | Some (FuncDecl Name Recv) =>
      if negb (IsExported Name) || bool_decide (Recv ≠ None) then Ok vis
      else
        if negb (bool_decide (Name ∈ skipFuncs))
        then Ok {| pkgName := pkgName vis; f := f vis ++ [Name]; t := t vis; v := v vis |}
        else Ok vis
  | Some (ValueSpec Names) =>
      n0 ← index Names 0;
      if negb (IsExported n0) || bool_decide (length Names = 0) then Ok vis
      else
        n0 ← index Names 0;
        if bool_decide (n0 ∈ expectVals)
        then n0 ← index Names 0;
             Ok {| pkgName := pkgName vis; f := f vis; t := t vis; v := v vis ++ [n0] |}
        else Ok vis
  | Some OtherNode => Ok vis
  | None => Ok vis
  end.

(** [ast.Walk(v, node)]: visit the node, walk its children in order with the
    visitor [Visit] returned (always the receiver here), then [Visit(nil)]. *)
Fixpoint Walk (vis : metaVisitor) (tree : Tree) : result metaVisitor :=
  match tree with
  | mkTree node children =>
      vis ← Visit vis (Some node);
      vis ← (fix walk_list (vis : metaVisitor) (cs : list Tree) : result metaVisitor :=
               match cs with
               | [] => Ok vis
               | c :: cs' => vis ← Walk vis c; walk_list vis cs'
               end) vis children;
      Visit vis None
  end.

(** *** [run] *)

(** The body of the loop of [run] once a package directory is parsed: walk
    every file of every package clause found there, then sort the function
    and the type names. *)
Definition collect (sch : Schedule) (pkg : pendingPkg) (pkgs : gmap string Package)
  : result metaVisitor :=
  let visitor := {| pkgName := name pkg; f := []; t := []; v := [] |} in
  visitor ← foldM (λ vis p,
                     foldM (λ vis file, Walk vis file.2) vis
                           (range_of sch ["Files"; name pkg; p.1] (Files p.2)))
                  visitor (range_of sch ["pkgs"; name pkg] pkgs);
  Ok {| pkgName := pkgName visitor;
        f := sort_Slice StrOrder.less (f visitor);
        t := sort_Slice StrOrder.less (t visitor);
        v := v visitor |}.

(** One iteration of the loop of [run]. *)
Definition scanPkg (sch : Schedule) (fs : FS) (pkg : pendingPkg) : result metaVisitor :=
  let '(location, err) := FindPackageLocation fs (path pkg) in
  match err with
  | Some err => Error err
  | None =>
      let '(pkgs, err) := ParseDir fs location filter in
      match err with
      | Some err => Error err
      | None => collect sch pkg pkgs
      end
  end.

(** Resolution or parsing of a package fails with [err]. *)
Definition scan_fails (fs : FS) (pkg : pendingPkg) (err : error) : Prop :=
  (FindPackageLocation fs (path pkg)).2 = Some err
  ∨ ((FindPackageLocation fs (path pkg)).2 = None
     ∧ (ParseDir fs (FindPackageLocation fs (path pkg)).1 filter).2 = Some err).

(** The loop of [run]: the first failure ends it. *)
Fixpoint run_loop (sch : Schedule) (fs : FS) (metas : list metaVisitor)
    (pkgs : list pendingPkg) : result (list metaVisitor) :=
  match pkgs with
  | [] => Ok metas
  | pkg :: rest =>
      visitor ← scanPkg sch fs pkg;
      run_loop sch fs (metas ++ [visitor]) rest
  end.

(** *** [writeFile] *)

(** The lines of one collected type name. *)
Definition type_lines (pkg typ : string) : list Line :=
  match alias !! typ with
  | Some vals =>
      vals ≫= λ val,
        if bool_decide (row_pkgName val = pkg) then [LType (newName val) pkg typ] else []
  | None => [LType typ pkg typ]
  end.

(** The names under which a type of a package is emitted: the substituted
    names of the rows for the package when the rename table has an entry for
    the type, and the name of the type itself when it has none. *)
Definition emitted_names (pkg typ : string) : list string :=
  match alias !! typ with
  | Some vals => newName <$> base.filter (λ val, row_pkgName val = pkg) vals
  | None => [typ]
  end.

(** The group of one package: separator, types, functions, values. *)
Definition group_lines (meta : metaVisitor) : list Line :=
  [LGroup (pkgName meta)]
  ++ (t meta ≫= type_lines (pkgName meta))
  ++ ((λ fn, LVar fn (pkgName meta)) <$> f meta)
  ++ ((λ val, LConst val (pkgName meta)) <$> v meta)
  ++ [LGroupEnd].

(** The import loop: [pendingPkgs[meta.pkgName].path] dereferences a nil
    pointer when the map has no such key. *)
Definition import_lines (metas : list metaVisitor) : result (list Line) :=
  foldM (λ ls meta,
           match pendingPkgs !! pkgName meta with
           | Some pkg => Ok (ls ++ [LImport (path pkg)])
           | None => Panic
           end) [] metas.

(** Everything written to [fileBuffer] before it is formatted. *)
Definition assemble (metas : list metaVisitor) : result (list Line) :=
  imports ← import_lines metas;
  Ok ([LHeader; LImportOpen] ++ imports ++ [LImportClose] ++ (metas ≫= group_lines)).

Definition writeFile (fs : FS) (dst : string) (metas : list metaVisitor) : FS * result () :=
  match assemble metas with
  | Ok ls =>
      let '(formatedBuf, err) := FmtFile "" (buffer_of ls) in
      match err with
      | Some err => (fs, Error err)
      | None => os_WriteFile fs dst formatedBuf
      end
  | Error err => (fs, Error err)
  | Panic => (fs, Panic)
  end.

(** [run], with [dst] the value of the [dst] flag. *)
Definition run (sch : Schedule) (fs : FS) (dst : string) : FS * result () :=
  match run_loop sch fs [] (toList sch pendingPkgs) with
  | Ok metas => writeFile fs dst metas
  | Error err => (fs, Error err)
  | Panic => (fs, Panic)
  end.

(** *** The declarations [Visit] records, read off a node *)

(** The sequence of [Visit] calls [ast.Walk] makes on a tree. *)
Fixpoint visits (tree : Tree) : list (option Node) :=
  match tree with
  | mkTree node children =>
      Some node :: (children ≫= visits) ++ [None]
  end.

(** The nodes visited when a parsed directory is walked. *)
Definition visited (sch : Schedule) (pkg : pendingPkg) (pkgs : gmap string Package)
  : list (option Node) :=
  range_of sch ["pkgs"; name pkg] pkgs ≫= λ p,
    range_of sch ["Files"; name pkg; p.1] (Files p.2) ≫= λ file, visits file.2.

(** An exported type declaration whose shape is a struct or an identifier
    and whose name is not skipped. *)
Definition recorded_type (node : option Node) : option string :=
  match node with
  | Some (TypeSpec Name Type_) =>
      if IsExported Name && negb (bool_decide (Name ∈ skips))
         && bool_decide (Type_ = StructType ∨ Type_ = Ident)
      then Some Name else None
  | _ => None
  end.

(** An exported function declaration without receiver whose name is not
    skipped. *)
Definition recorded_func (node : option Node) : option string :=
  match node with
  | Some (FuncDecl Name Recv) =>
      if IsExported Name && bool_decide (Recv = None)
         && negb (bool_decide (Name ∈ skipFuncs))
      then Some Name else None
  | _ => None
  end.

(** A value declaration whose first name is exported and allow-listed. *)
Definition recorded_value (node : option Node) : option string :=
  match node with
  | Some (ValueSpec (n0 :: _)) =>
      if IsExported n0 && bool_decide (n0 ∈ expectVals) then Some n0 else None
  | _ => None
  end.

(** A value declaration without names. *)
Definition nameless (node : option Node) : Prop :=
  node = Some (ValueSpec []).

(** The visitor with the names read off a sequence of nodes appended. *)
Definition recorded (vis : metaVisitor) (nodes : list (option Node)) : metaVisitor :=
  {| pkgName := pkgName vis;
     f := f vis ++ omap recorded_func nodes;
     t := t vis ++ omap recorded_type nodes;
     v := v vis ++ omap recorded_value nodes |}.

(** How often a line occurs in a text, and a name in a list of names. *)
Definition occurrences (l : Line) (ls : list Line) : nat :=
  count_occ Line_eq_dec ls l.

Definition times (n : string) (names : list string) : nat :=
  count_occ String.eq_dec names n.

End Generator.

End Gen.

Import Gen.

(** ** A concrete setting for worked examples

    Identifiers that start with an ASCII letter, a resolver that maps an
    import path to itself, a parser that reads a fixed table of parsed
    directories, a formatter that returns its input, and a file system on
    which writing never fails. *)

Module Example.

(** [IsExported] on identifiers whose first character is ASCII. *)
Definition IsExported (nm : string) : bool :=
  match nm with
  | String c _ => bool_decide (65 ≤ Ascii.nat_of_ascii c ≤ 90)%nat
  | EmptyString => false
  end.

Definition Version8 : Z := 8.
Definition LatestVersion : Z := 9.

Definition FindPackageLocation (fs : FS) (p : string) : string * option error :=
  (p, None).

Definition ParseDir (dirs : gmap string (gmap string Package))
    (fs : FS) (location : string) (keep : string → bool)
  : gmap string Package * option error :=
  match dirs !! location with
  | Some pkgs => (pkgs, None)
  | None => (∅, Some ("open " +:+ location +:+ ": no such file or directory"))
  end.

Definition FmtFile (nm src : string) : string * option error := (src, None).

(** A formatter that rejects every buffer. *)
Definition FmtFile_rejecting (nm src : string) : string * option error :=
  ("", Some "format: syntax error").

Definition WriteFile_failure (fs : FS) (dst data : string) : option (error * FS) :=
  None.

Definition leaf (node : Node) : Tree := mkTree node [].

(** A file: the [ast.File] node with its declarations below it. *)
Definition file (decls : list Node) : Tree := mkTree OtherNode (leaf <$> decls).

(** A directory holding one package clause. *)
Definition dir (pkg : string) (files : gmap string Tree) : gmap string Package :=
  {[ pkg := mkPackage files ]}.

Definition market : pendingPkg :=
  {| name := "market"; ver := LatestVersion; path := pkg_path LatestVersion "market" |}.
Definition miner : pendingPkg :=
  {| name := "miner"; ver := LatestVersion; path := pkg_path LatestVersion "miner" |}.
Definition paych : pendingPkg :=
  {| name := "paych"; ver := Version8; path := pkg_path Version8 "paych" |}.
Definition verifreg : pendingPkg :=
  {| name := "verifreg"; ver := LatestVersion; path := pkg_path LatestVersion "verifreg" |}.

(** The four directories of a small source tree. *)
Definition market_dir : gmap string Package :=
  dir "market"
    {[ "deal.go" := file [TypeSpec "WithdrawBalanceParams" StructType;
                          TypeSpec "Foo" StructType;
                          TypeSpec "State" StructType;
                          FuncDecl "Bar" None;
                          ValueSpec ["Baz"]];
       "policy.go" := file [TypeSpec "DealID" Ident;
                            TypeSpec "hidden" StructType;
                            FuncDecl "Apply" (Some mkFieldList)] ]}.

Definition miner_dir : gmap string Package :=
  dir "miner" {[ "miner.go" := file [TypeSpec "WithdrawBalanceParams" StructType;
                                     FuncDecl "ConstructState" None] ]}.

Definition paych_dir : gmap string Package :=
  dir "paych" {[ "paych.go" := file [TypeSpec "Voucher" StructType] ]}.

Definition verifreg_dir : gmap string Package :=
  dir "verifreg" {[ "verifreg.go" := file [ValueSpec ["NoAllocationID"];
                                           TypeSpec "AllocationId" Ident] ]}.

Definition dirs : gmap string (gmap string Package) :=
  {[ path market := market_dir; path miner := miner_dir;
     path paych := paych_dir; path verifreg := verifreg_dir ]}.

(** The same tree without the [paych] directory. *)
Definition dirs_without_paych : gmap string (gmap string Package) :=
  {[ path market := market_dir; path miner := miner_dir;
     path verifreg := verifreg_dir ]}.

Definition run (sch : Schedule) (fs : FS) (dst : string) : FS * result () :=
  run IsExported Version8 LatestVersion FindPackageLocation (ParseDir dirs)
      FmtFile WriteFile_failure sch fs dst.

Definition collect (sch : Schedule) (pkg : pendingPkg) (pkgs : gmap string Package)
  : result metaVisitor :=
  collect IsExported sch pkg pkgs.

(** A function declared in two files of one directory, as files that are
    alternatives under build constraints are. *)
Definition twice_dir : gmap string Package :=
  dir "market"
    {[ "sys_linux.go" := file [FuncDecl "Open" None; TypeSpec "Handle" StructType];
       "sys_windows.go" := file [FuncDecl "Open" None; TypeSpec "Handle" StructType] ]}.

(** A type that has a rename-table entry, declared in a package the entry
    has no row for. *)
Definition unlisted_dir : gmap string Package :=
  dir "paych" {[ "paych.go" := file [TypeSpec "WithdrawBalanceParams" StructType] ]}.

(** An allow-listed name that is not the first of its declaration, and the
    same declaration twice. *)
Definition values_dir : gmap string Package :=
  dir "verifreg"
    {[ "a.go" := file [ValueSpec ["Unset"; "NoAllocationID"]] ]}.

Definition values_twice_dir : gmap string Package :=
  dir "verifreg"
    {[ "a.go" := file [ValueSpec ["NoAllocationID"]];
       "b.go" := file [ValueSpec ["NoAllocationID"]] ]}.

(** A constant and a function of the same name, in two packages. *)
Definition code_const_dir : gmap string Package :=
  dir "market" {[ "a.go" := file [ValueSpec ["Code"]] ]}.
Definition code_func_dir : gmap string Package :=
  dir "miner" {[ "a.go" := file [FuncDecl "Code" None] ]}.

(** A method and a function of the same name. *)
Definition method_dir : gmap string Package :=
  dir "miner" {[ "a.go" := file [FuncDecl "Validate" (Some mkFieldList);
                                 FuncDecl "Validate" None] ]}.

(** The run over the tree without the [paych] directory, and its error. *)
Definition run_without_paych (sch : Schedule) (fs : FS) (dst : string) : FS * result () :=
  Gen.run IsExported Version8 LatestVersion FindPackageLocation
          (ParseDir dirs_without_paych) FmtFile WriteFile_failure sch fs dst.

Definition no_paych_error : error :=
  "open " +:+ path paych +:+ ": no such file or directory".

(** What [collect] returns on the directories above. *)
Definition market_meta : metaVisitor :=
  {| pkgName := "market"; f := ["Bar"];
     t := ["DealID"; "Foo"; "WithdrawBalanceParams"]; v := [] |}.
Definition verifreg_meta : metaVisitor :=
  {| pkgName := "verifreg"; f := []; t := ["AllocationId"]; v := ["NoAllocationID"] |}.
Definition unlisted_meta : metaVisitor :=
  {| pkgName := "paych"; f := []; t := ["WithdrawBalanceParams"]; v := [] |}.
Definition twice_meta : metaVisitor :=
  {| pkgName := "market"; f := ["Open"; "Open"]; t := ["Handle"; "Handle"]; v := [] |}.
Definition values_meta : metaVisitor :=
  {| pkgName := "verifreg"; f := []; t := []; v := [] |}.
Definition values_twice_meta : metaVisitor :=
  {| pkgName := "verifreg"; f := []; t := [];
     v := ["NoAllocationID"; "NoAllocationID"] |}.
Definition code_const_meta : metaVisitor :=
  {| pkgName := "market"; f := []; t := []; v := [] |}.
Definition code_func_meta : metaVisitor :=
  {| pkgName := "miner"; f := ["Code"]; t := []; v := [] |}.
Definition method_meta : metaVisitor :=
  {| pkgName := "miner"; f := ["Validate"]; t := []; v := [] |}.

Definition miner_meta : metaVisitor :=
  {| pkgName := "miner"; f := []; t := ["WithdrawBalanceParams"]; v := [] |}.
Definition paych_meta : metaVisitor :=
  {| pkgName := "paych"; f := []; t := ["Voucher"]; v := [] |}.

(** The text [writeFile] assembles for the four directories. *)
Definition assembled_text : string :=
  buffer_of ([LHeader; LImportOpen]
             ++ (LImport ∘ path <$> pkgs_by_name Version8 LatestVersion)
             ++ [LImportClose]
             ++ ([market_meta; miner_meta; paych_meta; verifreg_meta] ≫= group_lines)).

(** A tree in which a file of the market directory holds a value declaration
    without names. *)
Definition nameless_dir : gmap string Package :=
  dir "market" {[ "a.go" := file [TypeSpec "Foo" StructType; ValueSpec []] ]}.

Definition dirs_with_nameless : gmap string (gmap string Package) :=
  {[ path market := nameless_dir; path miner := miner_dir;
     path paych := paych_dir; path verifreg := verifreg_dir ]}.

Definition run_with_nameless (sch : Schedule) (fs : FS) (dst : string) : FS * result () :=
  Gen.run IsExported Version8 LatestVersion FindPackageLocation
          (ParseDir dirs_with_nameless) FmtFile WriteFile_failure sch fs dst.

(** The lines [writeFile] assembles for the market package alone. *)
Definition market_lines : list Line :=
  [LHeader; LImportOpen; LImport (path market); LImportClose]
  ++ group_lines market_meta.

End Example.

(** ** The gateway proxy structs: [proxy_gen.go] *)

Module Gateway.

(** The types of the API, which the proxies only pass along, and [World]:
    everything a call may read or change. *)
Class Types : Type := {
  World : Type;
  context_Context : Type;
  address_Address : Type;
  builtin_ExtendedSectorInfo : Type;
  abi_PoStRandomness : Type;
  abi_ChainEpoch : Type;
  network_Version : Type;
  builtin_PoStProof : Type;
  gtypes_MinerState : Type;
  gtypes_ProofRegisterPolicy : Type;
  gtypes_RequestEvent_chan : Type;
  gtypes_ResponseEvent : Type;
  gtypes_WalletDetail : Type;
  types_MsgMeta : Type;
  crypto_Signature : Type;
  types_UUID : Type;
  gtypes_WalletRegisterPolicy : Type;
  cid_Cid : Type;
  storage_SectorRef : Type;
  types_PaddedByteIndex : Type;
  abi_PaddedPieceSize : Type;
  gtypes_MarketConnectionState : Type;
  gtypes_MarketRegisterPolicy : Type;
  types_Version : Type;
  go_error : Type;
  go_byte : Type
}.

Section Proxy.
Context `{Types}.

(** A call returns its results and the world it leaves, or panics. *)
Definition call (R : Type) : Type := World → option (R * World).

(** A value of function type: [None] is the nil function. *)
Definition func (A R : Type) : Type := option (A → call R).

(** Calling a function value with an argument tuple; calling nil panics. *)
Definition invoke {A R : Type} (fn : func A R) (args : A) : call R :=
  match fn with
  | Some g => g args
  | None => λ _, None
  end.

Record IProofClientStruct_Internal_struct : Type := {
  ComputeProof_fn :
    func (context_Context * address_Address * list builtin_ExtendedSectorInfo
          * abi_PoStRandomness * abi_ChainEpoch * network_Version)
         (list builtin_PoStProof * go_error);
  ListConnectedMiners_fn : func context_Context (list address_Address * go_error);
  ListMinerConnection_fn :
    func (context_Context * address_Address) (gtypes_MinerState * go_error)
}.

Record IProofClientStruct : Type := {
  IProofClientStruct_Internal : IProofClientStruct_Internal_struct
}.

Definition ComputeProof (s : IProofClientStruct) p0 p1 p2 p3 p4 p5 :=
  invoke (ComputeProof_fn (IProofClientStruct_Internal s)) (p0, p1, p2, p3, p4, p5).
Definition ListConnectedMiners (s : IProofClientStruct) p0 :=
  invoke (ListConnectedMiners_fn (IProofClientStruct_Internal s)) p0.
Definition ListMinerConnection (s : IProofClientStruct) p0 p1 :=
  invoke (ListMinerConnection_fn (IProofClientStruct_Internal s)) (p0, p1).

Record IProofServiceProviderStruct_Internal_struct : Type := {
  ListenProofEvent_fn :
    func (context_Context * gtypes_ProofRegisterPolicy)
         (gtypes_RequestEvent_chan * go_error);
  ResponseProofEvent_fn : func (context_Context * gtypes_ResponseEvent) go_error
}.

Record IProofServiceProviderStruct : Type := {
  IProofServiceProviderStruct_Internal : IProofServiceProviderStruct_Internal_struct
}.

Definition ListenProofEvent (s : IProofServiceProviderStruct) p0 p1 :=
  invoke (ListenProofEvent_fn (IProofServiceProviderStruct_Internal s)) (p0, p1).
Definition ResponseProofEvent (s : IProofServiceProviderStruct) p0 p1 :=
  invoke (ResponseProofEvent_fn (IProofServiceProviderStruct_Internal s)) (p0, p1).

Record IProofEventStruct : Type := {
  IProofEventStruct_IProofClientStruct : IProofClientStruct;
  IProofEventStruct_IProofServiceProviderStruct : IProofServiceProviderStruct
}.

Record IWalletClientStruct_Internal_struct : Type := {
  ListWalletInfo_fn : func context_Context (list gtypes_WalletDetail * go_error);
  ListWalletInfoByWallet_fn :
    func (context_Context * string) (gtypes_WalletDetail * go_error);
  WalletHas_fn : func (context_Context * string * address_Address) (bool * go_error);
  WalletSign_fn :
    func (context_Context * string * address_Address * list go_byte * types_MsgMeta)
         (crypto_Signature * go_error)
}.

Record IWalletClientStruct : Type := {
  IWalletClientStruct_Internal : IWalletClientStruct_Internal_struct
}.

Definition ListWalletInfo (s : IWalletClientStruct) p0 :=
  invoke (ListWalletInfo_fn (IWalletClientStruct_Internal s)) p0.
Definition ListWalletInfoByWallet (s : IWalletClientStruct) p0 p1 :=
  invoke (ListWalletInfoByWallet_fn (IWalletClientStruct_Internal s)) (p0, p1).
Definition WalletHas (s : IWalletClientStruct) p0 p1 p2 :=
  invoke (WalletHas_fn (IWalletClientStruct_Internal s)) (p0, p1, p2).
Definition WalletSign (s : IWalletClientStruct) p0 p1 p2 p3 p4 :=
  invoke (WalletSign_fn (IWalletClientStruct_Internal s)) (p0, p1, p2, p3, p4).

Record IWalletServiceProviderStruct_Internal_struct : Type := {
  AddNewAddress_fn :
    func (context_Context * types_UUID * list address_Address) go_error;
  ListenWalletEvent_fn :
    func (context_Context * gtypes_WalletRegisterPolicy)
         (gtypes_RequestEvent_chan * go_error);
  RemoveAddress_fn :
    func (context_Context * types_UUID * list address_Address) go_error;
  ResponseWalletEvent_fn : func (context_Context * gtypes_ResponseEvent) go_error;
  SupportNewAccount_fn : func (context_Context * types_UUID * string) go_error
}.

Record IWalletServiceProviderStruct : Type := {
  IWalletServiceProviderStruct_Internal : IWalletServiceProviderStruct_Internal_struct
}.

Definition AddNewAddress (s : IWalletServiceProviderStruct) p0 p1 p2 :=
  invoke (AddNewAddress_fn (IWalletServiceProviderStruct_Internal s)) (p0, p1, p2).
Definition ListenWalletEvent (s : IWalletServiceProviderStruct) p0 p1 :=
  invoke (ListenWalletEvent_fn (IWalletServiceProviderStruct_Internal s)) (p0, p1).
Definition RemoveAddress (s : IWalletServiceProviderStruct) p0 p1 p2 :=
  invoke (RemoveAddress_fn (IWalletServiceProviderStruct_Internal s)) (p0, p1, p2).
Definition ResponseWalletEvent (s : IWalletServiceProviderStruct) p0 p1 :=
  invoke (ResponseWalletEvent_fn (IWalletServiceProviderStruct_Internal s)) (p0, p1).
Definition SupportNewAccount (s : IWalletServiceProviderStruct) p0 p1 p2 :=
  invoke (SupportNewAccount_fn (IWalletServiceProviderStruct_Internal s)) (p0, p1, p2).

Record IWalletEventStruct : Type := {
  IWalletEventStruct_IWalletClientStruct : IWalletClientStruct;
  IWalletEventStruct_IWalletServiceProviderStruct : IWalletServiceProviderStruct
}.

Record IMarketClientStruct_Internal_struct : Type := {
  IsUnsealed_fn :
    func (context_Context * address_Address * cid_Cid * storage_SectorRef
          * types_PaddedByteIndex * abi_PaddedPieceSize)
         (bool * go_error);
  ListMarketConnectionsState_fn :
    func context_Context (list gtypes_MarketConnectionState * go_error);
  SectorsUnsealPiece_fn :
    func (context_Context * address_Address * cid_Cid * storage_SectorRef
          * types_PaddedByteIndex * abi_PaddedPieceSize * string)
         go_error
}.

Record IMarketClientStruct : Type := {
  IMarketClientStruct_Internal : IMarketClientStruct_Internal_struct
}.

Definition IsUnsealed (s : IMarketClientStruct) p0 p1 p2 p3 p4 p5 :=
  invoke (IsUnsealed_fn (IMarketClientStruct_Internal s)) (p0, p1, p2, p3, p4, p5).
Definition ListMarketConnectionsState (s : IMarketClientStruct) p0 :=
  invoke (ListMarketConnectionsState_fn (IMarketClientStruct_Internal s)) p0.
Definition SectorsUnsealPiece (s : IMarketClientStruct) p0 p1 p2 p3 p4 p5 p6 :=
  invoke (SectorsUnsealPiece_fn (IMarketClientStruct_Internal s)) (p0, p1, p2, p3, p4, p5, p6).

Record IMarketServiceProviderStruct_Internal_struct : Type := {
  ListenMarketEvent_fn :
    func (context_Context * gtypes_MarketRegisterPolicy)
         (gtypes_RequestEvent_chan * go_error);
  ResponseMarketEvent_fn : func (context_Context * gtypes_ResponseEvent) go_error
}.

Record IMarketServiceProviderStruct : Type := {
  IMarketServiceProviderStruct_Internal : IMarketServiceProviderStruct_Internal_struct
}.

Definition ListenMarketEvent (s : IMarketServiceProviderStruct) p0 p1 :=
  invoke (ListenMarketEvent_fn (IMarketServiceProviderStruct_Internal s)) (p0, p1).
Definition ResponseMarketEvent (s : IMarketServiceProviderStruct) p0 p1 :=
  invoke (ResponseMarketEvent_fn (IMarketServiceProviderStruct_Internal s)) (p0, p1).

Record IMarketEventStruct : Type := {
  IMarketEventStruct_IMarketClientStruct : IMarketClientStruct;
  IMarketEventStruct_IMarketServiceProviderStruct : IMarketServiceProviderStruct
}.

Record IGatewayStruct_Internal_struct : Type := {
  Version_fn : func context_Context (types_Version * go_error)
}.

Record IGatewayStruct : Type := {
  IGatewayStruct_IProofEventStruct : IProofEventStruct;
  IGatewayStruct_IWalletEventStruct : IWalletEventStruct;
  IGatewayStruct_IMarketEventStruct : IMarketEventStruct;
  IGatewayStruct_Internal : IGatewayStruct_Internal_struct
}.

Definition Version (s : IGatewayStruct) p0 :=
  invoke (Version_fn (IGatewayStruct_Internal s)) p0.

(** [forwards method fn]: on every argument tuple and in every world,
    [method] does what calling the function value [fn] does: the same
    results and the same world after the call, or a panic when [fn] is nil. *)
Definition forwards {A R : Type} (method : A → call R) (fn : func A R) : Prop :=
  ∀ (args : A) (w : World),
    method args w =
    match fn with
    | Some g => g args w
    | None => None
    end.

End Proxy.

End Gateway.

(** * Properties *)

(** ** The string order *)

Module StrOrderFacts.
Import StrOrder.

Lemma less_compare a b : less a b = true ↔ String.compare a b = Lt.
Proof. unfold less, String.ltb. destruct (String.compare a b); split; congruence. Qed.

Lemma less_irrefl a : less a a = false.
Proof.
  destruct (less a a) eqn:E; [|done].
  apply less_compare in E.
  assert (String.compare a a = Eq) as H by (by apply String_as_OT.cmp_eq).
  congruence.
Qed.

Lemma less_trans a b c : less a b = true → less b c = true → less a c = true.
Proof.
  rewrite !less_compare. intros H1 H2.
  apply String_as_OT.cmp_lt. apply String_as_OT.cmp_lt in H1, H2.
  eapply String_as_OT.lt_trans; eauto.
Qed.

Lemma less_asym a b : less a b = true → less b a = false.
Proof.
  intros H. destruct (less b a) eqn:E; [|done].
  pose proof (less_trans _ _ _ H E) as Haa. rewrite less_irrefl in Haa. done.
Qed.

(** Trichotomy: two strings neither of which is before the other are equal. *)
Lemma less_trichotomy a b : less a b = false → less b a = false → a = b.
Proof.
  intros H1 H2. destruct (String.compare a b) eqn:E.
  - by apply String_as_OT.cmp_eq.
  - apply less_compare in E. congruence.
  - rewrite String.compare_antisym in E.
    assert (String.compare b a = Lt) as E' by (destruct (String.compare b a); done).
    apply less_compare in E'. congruence.
Qed.

Global Instance le_total : Total (notAfter less).
Proof.
  intros a b. unfold notAfter.
  destruct (less b a) eqn:E; [right; by apply less_asym | by left].
Qed.

Global Instance le_trans : Transitive (notAfter less).
Proof.
  intros a b c Hab Hbc. unfold notAfter in *.
  destruct (less c a) eqn:E; [|done].
  destruct (less a b) eqn:E1.
  - pose proof (less_trans _ _ _ E E1). congruence.
  - assert (a = b) by (by apply less_trichotomy). subst. congruence.
Qed.

Global Instance le_antisym : AntiSymm (=) (notAfter less).
Proof. intros a b H1 H2. by apply less_trichotomy. Qed.

(** The order of a slice sorted on a string key. *)
Section Keyed.
Context {A : Type} (key : A → string).

Global Instance keyed_total : Total (notAfter (λ a b, less (key a) (key b))).
Proof. intros a b. apply (le_total (key a) (key b)). Qed.

Global Instance keyed_trans : Transitive (notAfter (λ a b, less (key a) (key b))).
Proof. intros a b c. apply (le_trans (key a) (key b) (key c)). Qed.

Lemma keyed_antisym a b :
  notAfter (λ a b, less (key a) (key b)) a b →
  notAfter (λ a b, less (key a) (key b)) b a → key a = key b.
Proof. intros H1 H2. by apply (le_antisym (key a) (key b)). Qed.

End Keyed.

End StrOrderFacts.

(** ** Loops and sorting *)

Section Loops.
Context {A B : Type} (step : A → B → result A).

Lemma foldM_app a l1 l2 :
  foldM step a (l1 ++ l2) = a' ← foldM step a l1; foldM step a' l2.
Proof.
  revert a. induction l1 as [|x l1 IH]; intros a; simpl; [done|].
  destruct (step a x); simpl; auto.
Qed.

Lemma foldM_bind {C : Type} (g : C → list B) a (l : list C) :
  foldM (λ a x, foldM step a (g x)) a l = foldM step a (l ≫= g).
Proof.
  revert a. induction l as [|x l IH]; intros a; [done|].
  rewrite bind_cons, foldM_app. simpl.
  destruct (foldM step a (g x)); simpl; auto.
Qed.

End Loops.

Section Sorting.
Import StrOrder StrOrderFacts.

Lemma sort_Slice_Permutation {A} (lt : A → A → bool) l : sort_Slice lt l ≡ₚ l.
Proof. apply merge_sort_Permutation. Qed.

Lemma sort_Slice_Sorted l : Sorted (notAfter less) (sort_Slice less l).
Proof. apply (Sorted_merge_sort _). Qed.

(** A sorted rearrangement of a slice of strings is the one [sort_Slice]
    computes. *)
Lemma sort_Slice_unique l l' :
  l' ≡ₚ l → Sorted (notAfter less) l' → l' = sort_Slice less l.
Proof.
  intros Hp Hs. apply (Sorted_unique (notAfter less)); [done|apply sort_Slice_Sorted|].
  by rewrite sort_Slice_Permutation.
Qed.

Lemma sort_Slice_perm l1 l2 : l1 ≡ₚ l2 → sort_Slice less l1 = sort_Slice less l2.
Proof.
  intros Hp. apply sort_Slice_unique; [|apply sort_Slice_Sorted].
  by rewrite sort_Slice_Permutation.
Qed.

(** Sorting on a key that no two elements share. *)
Lemma sort_Slice_key_perm {A} (key : A → string) (l1 l2 : list A) :
  NoDup (key <$> l1) → l1 ≡ₚ l2 →
  sort_Slice (λ a b, less (key a) (key b)) l1 = sort_Slice (λ a b, less (key a) (key b)) l2.
Proof.
  intros Hnd Hp.
  set (R := notAfter (λ a b, less (key a) (key b))).
  apply (StronglySorted_unique_strong R).
  - intros x1 x2 Hx1 Hx2 H12 H21.
    pose proof (keyed_antisym key _ _ H12 H21) as Hk.
    unfold sort_Slice in Hx1, Hx2. rewrite merge_sort_Permutation in Hx1, Hx2.
    rewrite <- Hp in Hx2.
    clear -Hnd Hx1 Hx2 Hk. induction l1 as [|y l1 IH]; [by apply elem_of_nil in Hx1|].
    rewrite fmap_cons in Hnd. apply NoDup_cons in Hnd as [Hy Hnd].
    apply elem_of_cons in Hx1 as [->|Hx1]; apply elem_of_cons in Hx2 as [->|Hx2]; auto.
    + exfalso. apply Hy. rewrite Hk. by apply list_elem_of_fmap_2.
    + exfalso. apply Hy. rewrite <- Hk. by apply list_elem_of_fmap_2.
  - apply (StronglySorted_merge_sort _).
  - apply (StronglySorted_merge_sort _).
  - unfold sort_Slice. by rewrite !merge_sort_Permutation.
Qed.

End Sorting.

(** ** The traversal *)

Lemma Tree_ind' (P : Tree → Prop) :
  (∀ node children, Forall P children → P (mkTree node children)) →
  ∀ tree, P tree.
Proof.
  intros H. fix IH 1. intros [node children]. apply H.
  induction children as [|c cs IHcs]; constructor; [apply IH | apply IHcs].
Qed.

Lemma foldM_ext {A B} (step1 step2 : A → B → result A) a l :
  (∀ a x, step1 a x = step2 a x) → foldM step1 a l = foldM step2 a l.
Proof.
  intros H. revert a. induction l as [|x l IH]; intros a; simpl; [done|].
  rewrite H. destruct (step2 a x); simpl; auto.
Qed.

Section Traversal.
Variable IsExported : string → bool.

Local Abbreviation Visit := (Visit IsExported).
Local Abbreviation Walk := (Walk IsExported).
Local Abbreviation recorded := (recorded IsExported).
Local Abbreviation collect := (collect IsExported).

Global Instance nameless_dec node : Decision (nameless node).
Proof. unfold nameless. apply _. Defined.

(** [ast.Walk] calls [Visit] on the nodes of the tree in [visits] order. *)
Lemma Walk_visits tree : ∀ vis, Walk vis tree = foldM Visit vis (visits tree).
Proof.
  induction tree as [node children IH] using Tree_ind'. intros vis.
  cbn [Gen.Walk visits foldM].
  destruct (Visit vis (Some node)) as [vis1| |]; simpl; [|done..].
  rewrite foldM_app.
  revert vis1. induction IH as [|c cs Hc _ IHcs]; intros vis1; [done|].
  rewrite bind_cons, foldM_app, <- Hc.
  destruct (Walk vis1 c) as [vis2| |]; simpl; [apply IHcs|done..].
Qed.

(** One call of [Visit]: a panic on a value declaration without names, and
    otherwise the names read off the node appended. *)
Lemma Visit_spec vis node :
  Visit vis node = if decide (nameless node) then Panic else Ok (recorded vis [node]).
Proof.
  unfold nameless, Gen.recorded. destruct vis as [p fs ts vs].
  destruct node as [[nm ty|nm recv|names|]|]; case_decide as Hn;
    try discriminate Hn; cbn -[skips skipFuncs expectVals].
  - destruct (IsExported nm); simpl; [|by rewrite !app_nil_r].
    destruct (bool_decide (nm ∈ skips)); simpl; [by rewrite !app_nil_r|].
    destruct ty; simpl; by rewrite ?app_nil_r.
  - destruct (IsExported nm); simpl; [|by rewrite !app_nil_r].
    destruct recv as [r|]; simpl; [by rewrite !app_nil_r|].
    destruct (bool_decide (nm ∈ skipFuncs)); simpl; by rewrite !app_nil_r.
  - by injection Hn as ->.
  - destruct names as [|n0 names]; [done|]. cbn -[expectVals].
    destruct (IsExported n0); simpl; [|by rewrite !app_nil_r].
    destruct (bool_decide (n0 ∈ expectVals)); simpl; by rewrite !app_nil_r.
  - by rewrite !app_nil_r.
  - by rewrite !app_nil_r.
Qed.

Lemma recorded_nil vis : recorded vis [] = vis.
Proof. destruct vis. unfold Gen.recorded. simpl. by rewrite !app_nil_r. Qed.

Lemma recorded_cons vis node nodes :
  recorded (recorded vis [node]) nodes = recorded vis (node :: nodes).
Proof.
  unfold Gen.recorded. simpl.
  destruct (recorded_func IsExported node), (recorded_type IsExported node),
    (recorded_value IsExported node); simpl;
    rewrite ?app_nil_r, <- ?app_assoc; done.
Qed.

(** A traversal without a nameless value declaration records the names read
    off its nodes, in the order of the visit. *)
Lemma foldM_Visit vis nodes :
  Forall (λ node, ¬ nameless node) nodes →
  foldM Visit vis nodes = Ok (recorded vis nodes).
Proof.
  intros H. revert vis. induction H as [|node nodes Hn _ IH]; intros vis.
  - by rewrite recorded_nil.
  - simpl. rewrite Visit_spec, decide_False by done. simpl.
    by rewrite IH, recorded_cons.
Qed.

(** A traversal that meets a nameless value declaration panics. *)
Lemma foldM_Visit_panic vis nodes :
  Exists nameless nodes → foldM Visit vis nodes = Panic.
Proof.
  intros H. revert vis. induction H as [node nodes Hn|node nodes _ IH]; intros vis.
  - simpl. by rewrite Visit_spec, decide_True.
  - simpl. rewrite Visit_spec. destruct (decide (nameless node)); [done|]. apply IH.
Qed.

(** [collect] is a single traversal of the visited nodes, then the sorts. *)
Lemma collect_visited sch pkg pkgs :
  collect sch pkg pkgs =
  vis ← foldM Visit {| pkgName := name pkg; f := []; t := []; v := [] |}
                    (visited sch pkg pkgs);
  Ok {| pkgName := pkgName vis;
        f := sort_Slice StrOrder.less (f vis);
        t := sort_Slice StrOrder.less (t vis);
        v := v vis |}.
Proof.
  unfold Gen.collect, visited. f_equal.
  rewrite <- foldM_bind. apply foldM_ext. intros vis p.
  rewrite <- foldM_bind. apply foldM_ext. intros vis' file.
  apply Walk_visits.
Qed.

Lemma collect_spec sch pkg pkgs :
  collect sch pkg pkgs =
  if decide (Exists nameless (visited sch pkg pkgs)) then Panic
  else Ok {| pkgName := name pkg;
             f := sort_Slice StrOrder.less (omap (recorded_func IsExported) (visited sch pkg pkgs));
             t := sort_Slice StrOrder.less (omap (recorded_type IsExported) (visited sch pkg pkgs));
             v := omap (recorded_value IsExported) (visited sch pkg pkgs) |}.
Proof.
  rewrite collect_visited. destruct (decide _) as [Hex|Hno].
  - by rewrite foldM_Visit_panic.
  - rewrite foldM_Visit; [done|].
    apply Forall_forall. intros node Hin Hn. apply Hno, Exists_exists. eauto.
Qed.

End Traversal.

(** ** Independence of the order of [range] *)

Lemma bind_Permutation_pointwise {A B} (g1 g2 : A → list B) (l1 l2 : list A) :
  l1 ≡ₚ l2 → (∀ x, g1 x ≡ₚ g2 x) → l1 ≫= g1 ≡ₚ l2 ≫= g2.
Proof.
  intros Hp Hg. rewrite <- Hp. clear Hp l2.
  induction l1 as [|x l1 IH]; [done|].
  rewrite !bind_cons. by rewrite IH, Hg.
Qed.

(** Two rearrangements of a slice that holds one value only are equal. *)
Lemma constant_Permutation_eq {A} (c : A) (l1 l2 : list A) :
  Forall (λ x, x = c) l1 → l1 ≡ₚ l2 → l1 = l2.
Proof.
  intros Hc Hp.
  assert (Forall (λ x, x = c) l2) as Hc2 by (by rewrite <- Hp).
  apply Permutation_length in Hp.
  revert l2 Hc2 Hp. induction Hc as [|x l1 -> _ IH]; intros [|y l2] Hc2 Hp; try done.
  apply Forall_cons in Hc2 as [-> Hc2]. f_equal. apply IH; [done|]. by injection Hp.
Qed.

(** A slice that holds one value only is sorted. *)
Lemma constant_Sorted (c : string) (l : list string) :
  Forall (λ x, x = c) l → Sorted (StrOrder.notAfter StrOrder.less) l.
Proof.
  induction 1 as [|x l -> Hl IH]; constructor; [done|].
  destruct Hl as [|y l -> _]; constructor.
  unfold StrOrder.notAfter. apply StrOrderFacts.less_irrefl.
Qed.

Lemma foldl_snoc_snd {A B} (l : list (A * B)) (acc : list B) :
  foldl (λ list_ pkg, list_ ++ [pkg.2]) acc l = acc ++ l.*2.
Proof.
  revert acc. induction l as [|x l IH]; intros acc; simpl; [by rewrite app_nil_r|].
  rewrite IH, <- app_assoc. done.
Qed.

Section Determinism.
Variable IsExported : string → bool.
Variable Version8 : Z.
Variable LatestVersion : Z.
Variable FindPackageLocation : FS → string → string * option error.
Variable ParseDir : FS → string → (string → bool) → gmap string Package * option error.
Variable FmtFile : string → string → string * option error.
Variable WriteFile_failure : FS → string → string → option (error * FS).

Local Abbreviation collect := (collect IsExported).
Local Abbreviation pendingPkgs := (pendingPkgs Version8 LatestVersion).
Local Abbreviation scanPkg := (scanPkg IsExported FindPackageLocation ParseDir).
Local Abbreviation run_loop := (run_loop IsExported FindPackageLocation ParseDir).
Local Abbreviation run :=
  (run IsExported Version8 LatestVersion FindPackageLocation ParseDir FmtFile
       WriteFile_failure).

Lemma visited_Permutation sch1 sch2 pkg pkgs :
  valid_schedule sch1 → valid_schedule sch2 →
  visited sch1 pkg pkgs ≡ₚ visited sch2 pkg pkgs.
Proof.
  intros H1 H2. unfold visited. apply bind_Permutation_pointwise.
  - etrans; [apply H1|symmetry; apply H2].
  - intros p. apply bind_Permutation_pointwise; [|done].
    etrans; [apply H1|symmetry; apply H2].
Qed.

(** The only name the value list can hold. *)
Lemma recorded_value_allowed nodes :
  Forall (λ n, n = "NoAllocationID") (omap (recorded_value IsExported) nodes).
Proof.
  apply Forall_forall. intros n Hn.
  apply list_elem_of_omap in Hn as (node & _ & Hrec).
  destruct node as [[| |[|n0 names]|]|]; simpl in Hrec; try done.
  destruct (IsExported n0); simpl in Hrec; [|done].
  case_bool_decide as Hin; [|done]. injection Hrec as <-.
  unfold expectVals in Hin. by apply elem_of_singleton in Hin.
Qed.

Lemma collect_schedule sch1 sch2 pkg pkgs :
  valid_schedule sch1 → valid_schedule sch2 →
  collect sch1 pkg pkgs = collect sch2 pkg pkgs.
Proof.
  intros H1 H2. pose proof (visited_Permutation sch1 sch2 pkg pkgs H1 H2) as Hp.
  rewrite !collect_spec.
  destruct (decide (Exists nameless (visited sch1 pkg pkgs))) as [Hex1|Hno1];
    destruct (decide (Exists nameless (visited sch2 pkg pkgs))) as [Hex2|Hno2]; try done.
  - exfalso. apply Hno2. by rewrite <- Hp.
  - exfalso. apply Hno1. by rewrite Hp.
  - f_equal. f_equal.
    + apply sort_Slice_perm. by rewrite Hp.
    + apply sort_Slice_perm. by rewrite Hp.
    + apply (constant_Permutation_eq "NoAllocationID");
        [apply recorded_value_allowed | by rewrite Hp].
Qed.

Lemma scanPkg_schedule sch1 sch2 fs pkg :
  valid_schedule sch1 → valid_schedule sch2 →
  scanPkg sch1 fs pkg = scanPkg sch2 fs pkg.
Proof.
  intros H1 H2. unfold Gen.scanPkg.
  destruct (FindPackageLocation fs (path pkg)) as [location [err|]]; [done|].
  destruct (ParseDir fs location filter) as [pkgs [err|]]; [done|].
  by apply collect_schedule.
Qed.

Lemma run_loop_schedule sch1 sch2 fs metas pkgs :
  valid_schedule sch1 → valid_schedule sch2 →
  run_loop sch1 fs metas pkgs = run_loop sch2 fs metas pkgs.
Proof.
  intros H1 H2. revert metas. induction pkgs as [|pkg pkgs IH]; intros metas; [done|].
  simpl. rewrite (scanPkg_schedule sch1 sch2) by done.
  destruct (scanPkg sch2 fs pkg); simpl; auto.
Qed.

(** Every entry of [pendingPkgs] is filed under its own name. *)
Lemma pendingPkgs_lookup k pkg :
  pendingPkgs !! k = Some pkg →
  pkg = {| name := k; ver := (if decide (k = "paych") then Version8 else LatestVersion);
           path := pkg_path (if decide (k = "paych") then Version8 else LatestVersion) k |}
  ∧ k ∈ ["market"; "miner"; "paych"; "verifreg"].
Proof.
  unfold Gen.pendingPkgs. simpl. intros H.
  repeat (apply lookup_insert_Some in H as [[<- <-]|[? H]]; [split; [done|set_solver]|]).
  by rewrite lookup_empty in H.
Qed.

Lemma pendingPkgs_names :
  name <$> (map_to_list pendingPkgs).*2 = (map_to_list pendingPkgs).*1.
Proof.
  rewrite <- list_fmap_compose. apply list_fmap_ext.
  intros i [k pkg] Hi. simpl.
  apply list_elem_of_lookup_2, elem_of_map_to_list, pendingPkgs_lookup in Hi as [-> _].
  done.
Qed.

Lemma pendingPkgs_Permutation : (map_to_list pendingPkgs).*2 ≡ₚ pkgs_by_name Version8 LatestVersion.
Proof.
  unfold Gen.pendingPkgs. simpl.
  rewrite !map_to_list_insert, map_to_list_empty by (by vm_compute).
  simpl. unfold pkgs_by_name.
  etrans; [apply Permutation_cons_append|]. simpl. apply perm_swap.
Qed.

(** [toList] yields the pending packages in the order of their names,
    whatever the order in which the map is ranged over. *)
Lemma toList_schedule sch :
  valid_schedule sch → toList sch pendingPkgs = pkgs_by_name Version8 LatestVersion.
Proof.
  intros Hv. unfold toList. rewrite foldl_snoc_snd, app_nil_l.
  trans (sort_Slice (λ a b, StrOrder.less (name a) (name b))
                    (pkgs_by_name Version8 LatestVersion)); [|by vm_compute].
  apply sort_Slice_key_perm.
  - rewrite (Hv _ _ pendingPkgs), pendingPkgs_names. apply NoDup_fst_map_to_list.
  - rewrite (Hv _ _ pendingPkgs). apply pendingPkgs_Permutation.
Qed.

Lemma collect_Ok sch pkg pkgs vis :
  collect sch pkg pkgs = Ok vis →
  pkgName vis = name pkg
  ∧ f vis = sort_Slice StrOrder.less (omap (recorded_func IsExported) (visited sch pkg pkgs))
  ∧ t vis = sort_Slice StrOrder.less (omap (recorded_type IsExported) (visited sch pkg pkgs))
  ∧ v vis = omap (recorded_value IsExported) (visited sch pkg pkgs).
Proof.
  rewrite collect_spec. case_decide; [done|]. by intros [= <-].
Qed.

Lemma scanPkg_Ok sch fs pkg vis :
  scanPkg sch fs pkg = Ok vis →
  ∃ pkgs, collect sch pkg pkgs = Ok vis.
Proof.
  unfold Gen.scanPkg.
  destruct (FindPackageLocation fs (path pkg)) as [location [err|]]; [done|].
  destruct (ParseDir fs location filter) as [pkgs [err|]]; [done|]. eauto.
Qed.

Lemma run_loop_Ok sch fs metas0 pkgs metas :
  run_loop sch fs metas0 pkgs = Ok metas →
  ∃ scanned, metas = metas0 ++ scanned
             ∧ Forall2 (λ pkg vis, scanPkg sch fs pkg = Ok vis) pkgs scanned.
Proof.
  revert metas0. induction pkgs as [|pkg pkgs IH]; intros metas0; simpl.
  - intros [= <-]. exists []. by rewrite app_nil_r.
  - destruct (scanPkg sch fs pkg) as [vis| |] eqn:Hscan; simpl; [|done..].
    intros H. apply IH in H as (scanned & -> & HF).
    exists (vis :: scanned). rewrite <- app_assoc. by split; [|constructor].
Qed.

(** The first package that fails ends the loop with its error. *)
Lemma run_loop_first_failure sch fs metas0 before pkg rest err :
  Forall (λ p, ∃ vis, scanPkg sch fs p = Ok vis) before →
  scanPkg sch fs pkg = Error err →
  run_loop sch fs metas0 (before ++ pkg :: rest) = Error err.
Proof.
  intros Hb Hf. revert metas0.
  induction Hb as [|p before [vis Hp] _ IH]; intros metas0; simpl.
  - by rewrite Hf.
  - rewrite Hp. simpl. apply IH.
Qed.

(** A package that cannot be resolved or parsed keeps the loop from
    completing. *)
Lemma run_loop_failure sch fs metas0 pkgs pkg err :
  pkg ∈ pkgs → scanPkg sch fs pkg = Error err →
  ∀ metas, run_loop sch fs metas0 pkgs ≠ Ok metas.
Proof.
  intros Hin Hf metas H. apply run_loop_Ok in H as (scanned & _ & HF).
  apply list_elem_of_lookup in Hin as [i Hi].
  destruct (Forall2_lookup_l _ _ _ _ _ HF Hi) as (vis & _ & Hvis). congruence.
Qed.

Lemma scan_fails_Error sch fs pkg err :
  scan_fails FindPackageLocation ParseDir fs pkg err → scanPkg sch fs pkg = Error err.
Proof.
  unfold scan_fails, Gen.scanPkg.
  destruct (FindPackageLocation fs (path pkg)) as [location [e|]]; simpl.
  - intros [[= ->]|[? _]]; done.
  - destruct (ParseDir fs location filter) as [pkgs [e|]]; simpl.
    + intros [?|[_ [= ->]]]; done.
    + intros [?|[_ ?]]; done.
Qed.

Lemma sorted_lists sch pkg pkgs vis :
  collect sch pkg pkgs = Ok vis →
  Sorted (StrOrder.notAfter StrOrder.less) (t vis)
  ∧ Sorted (StrOrder.notAfter StrOrder.less) (f vis)
  ∧ Sorted (StrOrder.notAfter StrOrder.less) (v vis).
Proof.
  intros H. apply collect_Ok in H as (_ & -> & -> & ->).
  split_and!; [apply sort_Slice_Sorted..|].
  eapply constant_Sorted, recorded_value_allowed.
Qed.

Lemma type_lines_declarations pkg typ : Forall is_declaration (type_lines pkg typ).
Proof.
  unfold type_lines. destruct (alias !! typ) as [vals|]; [|by repeat constructor].
  apply Forall_forall. intros l Hl.
  apply list_elem_of_bind in Hl as (val & Hl & _).
  case_bool_decide; [|by apply elem_of_nil in Hl].
  by apply list_elem_of_singleton in Hl as ->.
Qed.

Lemma group_lines_layout meta :
  ∃ decls, group_lines meta = [LGroup (pkgName meta)] ++ decls ++ [LGroupEnd]
           ∧ Forall is_declaration decls.
Proof.
  exists ((t meta ≫= type_lines (pkgName meta))
          ++ ((λ fn, LVar fn (pkgName meta)) <$> f meta)
          ++ ((λ val, LConst val (pkgName meta)) <$> v meta)).
  split; [unfold group_lines; by rewrite <- !app_assoc|].
  rewrite !Forall_app. split_and!.
  - apply Forall_forall. intros l Hl.
    apply list_elem_of_bind in Hl as (typ & Hl & _).
    pose proof (type_lines_declarations (pkgName meta) typ) as HF.
    by eapply Forall_forall in HF.
  - by apply Forall_fmap, Forall_true.
  - by apply Forall_fmap, Forall_true.
Qed.

Lemma import_lines_by_name metas :
  pkgName <$> metas = ["market"; "miner"; "paych"; "verifreg"] →
  import_lines Version8 LatestVersion metas
  = Ok (LImport ∘ path <$> pkgs_by_name Version8 LatestVersion).
Proof.
  destruct metas as [|m1 [|m2 [|m3 [|m4 [|]]]]]; try done.
  intros [= H1 H2 H3 H4]. unfold import_lines. cbn [foldM].
  rewrite H1, H2, H3, H4. reflexivity.
Qed.

Lemma run_schedule sch1 sch2 fs dst :
  valid_schedule sch1 → valid_schedule sch2 → run sch1 fs dst = run sch2 fs dst.
Proof.
  intros H1 H2. unfold Gen.run.
  rewrite !toList_schedule by done.
  by rewrite (run_loop_schedule sch1 sch2).
Qed.

(** C2: for a fixed package list and fixed source trees, two runs of the
    generator end in the same result and the same file system, whatever the
    orders in which the maps of packages and of files are ranged over; and
    each of the three name lists of every package is in byte-wise
    lexicographic order when it is rendered. *)
Theorem C2_runs_agree sch1 sch2 fs dst :
  valid_schedule sch1 → valid_schedule sch2 →
  run sch1 fs dst = run sch2 fs dst
  ∧ ∀ metas, run_loop sch1 fs [] (toList sch1 pendingPkgs) = Ok metas →
             Forall (λ meta, Sorted (StrOrder.notAfter StrOrder.less) (t meta)
                             ∧ Sorted (StrOrder.notAfter StrOrder.less) (f meta)
                             ∧ Sorted (StrOrder.notAfter StrOrder.less) (v meta)) metas.
Proof.
  intros H1 H2. split; [by apply run_schedule|].
  intros metas H. apply run_loop_Ok in H as (scanned & -> & HF). simpl.
  apply Forall_forall. intros meta Hin.
  apply list_elem_of_lookup in Hin as [i Hi].
  destruct (Forall2_lookup_r _ _ _ _ _ HF Hi) as (pkg & _ & Hscan).
  apply scanPkg_Ok in Hscan as [pkgs Hc]. by eapply sorted_lists.
Qed.

(** C5: when the location of a scanned package cannot be resolved, or its
    directory cannot be parsed, [run] does not succeed and leaves the file
    system as it was; when no earlier package stops the loop, [run] returns
    the error of that package. *)
Theorem C5_failure_writes_nothing sch fs dst pkg err :
  pkg ∈ toList sch pendingPkgs →
  scan_fails FindPackageLocation ParseDir fs pkg err →
  (run sch fs dst).1 = fs
  ∧ (run sch fs dst).2 ≠ Ok ()
  ∧ ∀ before rest,
      toList sch pendingPkgs = before ++ pkg :: rest →
      Forall (λ p, ∃ vis, scanPkg sch fs p = Ok vis) before →
      run sch fs dst = (fs, Error err).
Proof.
  intros Hin Hf. apply (scan_fails_Error sch) in Hf.
  pose proof (run_loop_failure sch fs [] _ pkg err Hin Hf) as Hno.
  unfold Gen.run.
  destruct (run_loop sch fs [] (toList sch pendingPkgs)) as [metas|e|] eqn:Hloop.
  - by destruct (Hno metas).
  - split_and!; [done..|].
    intros before rest Heq Hb. rewrite Heq in Hloop.
    rewrite (run_loop_first_failure sch fs [] before pkg rest err Hb Hf) in Hloop.
    by injection Hloop as ->.
  - split_and!; [done..|].
    intros before rest Heq Hb. rewrite Heq in Hloop.
    by rewrite (run_loop_first_failure sch fs [] before pkg rest err Hb Hf) in Hloop.
Qed.

(** C6: when formatting the assembled buffer fails, [writeFile] returns the
    error of the formatter and the file system is as it was; whenever
    [writeFile] changes the file system, the buffer was assembled and
    formatted without error and the only write is the one of the formatted
    text to the destination. *)
Theorem C6_format_failure_writes_nothing fs dst metas ls formatted err :
  assemble Version8 LatestVersion metas = Ok ls →
  FmtFile "" (buffer_of ls) = (formatted, Some err) →
  writeFile Version8 LatestVersion FmtFile WriteFile_failure fs dst metas = (fs, Error err)
  ∧ ∀ fs0 dst0 metas0,
      (writeFile Version8 LatestVersion FmtFile WriteFile_failure fs0 dst0 metas0).1 ≠ fs0 →
      ∃ ls0 formatted0,
        assemble Version8 LatestVersion metas0 = Ok ls0
        ∧ FmtFile "" (buffer_of ls0) = (formatted0, None)
        ∧ writeFile Version8 LatestVersion FmtFile WriteFile_failure fs0 dst0 metas0
          = os_WriteFile WriteFile_failure fs0 dst0 formatted0.
Proof.
  intros Hasm Hfmt. split.
  - unfold writeFile. by rewrite Hasm, Hfmt.
  - intros fs0 dst0 metas0. unfold writeFile.
    destruct (assemble Version8 LatestVersion metas0) as [ls0| |] eqn:Hasm0; [|done..].
    destruct (FmtFile "" (buffer_of ls0)) as [formatted0 [e|]] eqn:Hfmt0; [done|].
    intros _. exists ls0, formatted0. by rewrite Hfmt0.
Qed.


End Determinism.

(** ** The lines of a group, counted *)

Section Counting.

Lemma occurrences_app l ls1 ls2 :
  occurrences l (ls1 ++ ls2) = occurrences l ls1 + occurrences l ls2.
Proof. apply count_occ_app. Qed.

Lemma occurrences_absent l ls : Forall (λ l', l' ≠ l) ls → occurrences l ls = 0.
Proof.
  intros H. apply count_occ_not_In. intros Hin.
  rewrite Forall_forall in H. apply (H l); [|done]. by apply list_elem_of_In.
Qed.

Lemma occurrences_fmap (g : string → Line) n names :
  Inj (=) (=) g → occurrences (g n) (g <$> names) = times n names.
Proof.
  intros Hinj. unfold occurrences, times.
  induction names as [|x names IH]; [done|].
  rewrite fmap_cons. simpl. rewrite IH.
  destruct (Line_eq_dec (g x) (g n)) as [Heq|Hne], (String.eq_dec x n) as [->|Hne']; try done.
  - by apply Hinj in Heq.
Qed.

Lemma times_Permutation n l1 l2 : l1 ≡ₚ l2 → times n l1 = times n l2.
Proof. intros H. unfold times. by apply Permutation_count_occ. Qed.

Lemma times_sort n l : times n (sort_Slice StrOrder.less l) = times n l.
Proof. apply times_Permutation, sort_Slice_Permutation. Qed.

(** The lines of a type are its emitted names, each aliasing the type. *)
Lemma type_lines_emitted pkg typ :
  type_lines pkg typ = (λ nn, LType nn pkg typ) <$> emitted_names pkg typ.
Proof.
  unfold type_lines, emitted_names. destruct (alias !! typ) as [vals|]; [|done].
  induction vals as [|val vals IH]; [done|].
  rewrite bind_cons, IH, filter_cons.
  case_bool_decide; case_decide; done.
Qed.

Lemma times_cons n x names :
  times n (x :: names) = (if decide (x = n) then 1 else 0) + times n names.
Proof.
  unfold times. simpl.
  destruct (String.eq_dec x n), (decide (x = n)); done.
Qed.

Lemma occurrences_type_lines x pkg n ts :
  occurrences (LType x pkg n) (ts ≫= type_lines pkg)
  = times n ts * times x (emitted_names pkg n).
Proof.
  induction ts as [|typ ts IH]; [done|].
  rewrite bind_cons, occurrences_app, IH, times_cons, type_lines_emitted.
  case_decide as Hn.
  - subst typ.
    rewrite (occurrences_fmap (λ nn, LType nn pkg n)) by (by intros ?? [=]). lia.
  - rewrite occurrences_absent; [done|].
    apply Forall_fmap, Forall_true. intros nn [=]. done.
Qed.

(** The rename table: its one entry, and the packages it has rows for. *)
Lemma alias_entry n vals :
  alias !! n = Some vals →
  n = "WithdrawBalanceParams"
  ∧ vals = [ {| row_pkgName := "market"; newName := "MarketWithdrawBalanceParams" |};
             {| row_pkgName := "miner"; newName := "MinerWithdrawBalanceParams" |} ].
Proof. unfold alias. intros H. by apply lookup_singleton_Some in H as [<- <-]. Qed.

Lemma emitted_names_renamed pkg n m :
  is_Some (alias !! n) → emitted_names pkg n = [m] →
  n = "WithdrawBalanceParams"
  ∧ ((pkg = "market" ∧ m = "MarketWithdrawBalanceParams")
     ∨ (pkg = "miner" ∧ m = "MinerWithdrawBalanceParams")).
Proof.
  intros [vals Hv] He. unfold emitted_names in He. rewrite Hv in He.
  apply alias_entry in Hv as [-> ->]. split; [done|].
  rewrite !filter_cons, filter_nil in He. simpl in He.
  repeat case_decide; simplify_eq/=; auto.
Qed.

End Counting.

(** ** What a group holds for the declarations of its package *)

Section Groups.
Variable IsExported : string → bool.

Local Abbreviation collect := (collect IsExported).
Local Abbreviation recorded_type := (recorded_type IsExported).
Local Abbreviation recorded_func := (recorded_func IsExported).
Local Abbreviation recorded_value := (recorded_value IsExported).

Lemma recorded_type_Some node n :
  recorded_type node = Some n ↔
  ∃ ty, node = Some (TypeSpec n ty) ∧ IsExported n = true ∧ (n ∉ skips)
        ∧ (ty = StructType ∨ ty = Ident).
Proof.
  split.
  - destruct node as [[nm ty| | |]|]; simpl; try done.
    destruct (IsExported nm) eqn:He; simpl; [|done].
    case_bool_decide as Hs; simpl; [done|].
    case_bool_decide as Hty; [|done]. intros [= <-]. eauto.
  - intros (ty & -> & He & Hs & Hty). simpl. rewrite He. simpl.
    rewrite bool_decide_false by done. simpl. by rewrite bool_decide_true.
Qed.

Lemma recorded_func_Some node n :
  recorded_func node = Some n ↔
  node = Some (FuncDecl n None) ∧ IsExported n = true ∧ n ∉ skipFuncs.
Proof.
  split.
  - destruct node as [[|nm recv| |]|]; simpl; try done.
    destruct (IsExported nm) eqn:He; simpl; [|done].
    case_bool_decide as Hr; simpl; [|done]. subst recv.
    case_bool_decide as Hs; simpl; [done|]. intros [= <-]. auto.
  - intros (-> & He & Hs). simpl. rewrite He. simpl.
    by rewrite (bool_decide_false (n ∈ skipFuncs)).
Qed.

Lemma recorded_value_Some node n :
  recorded_value node = Some n ↔
  ∃ others, node = Some (ValueSpec (n :: others)) ∧ IsExported n = true
            ∧ n ∈ expectVals.
Proof.
  split.
  - destruct node as [[| |[|n0 others]|]|]; simpl; try done.
    destruct (IsExported n0) eqn:He; simpl; [|done].
    case_bool_decide as Hs; [|done]. intros [= <-]. eauto.
  - intros (others & -> & He & Hs). simpl. rewrite He. simpl.
    by rewrite bool_decide_true.
Qed.

(** The counts of the three kinds of declaration lines in a group. *)
Lemma group_lines_types meta x n :
  occurrences (LType x (pkgName meta) n) (group_lines meta)
  = times n (t meta) * times x (emitted_names (pkgName meta) n).
Proof.
  unfold group_lines. rewrite !occurrences_app, occurrences_type_lines.
  rewrite !(occurrences_absent (LType _ _ _)); [lia|..].
  - by repeat constructor.
  - by apply Forall_fmap, Forall_true.
  - by apply Forall_fmap, Forall_true.
  - by repeat constructor.
Qed.

Lemma group_lines_vars meta n :
  occurrences (LVar n (pkgName meta)) (group_lines meta) = times n (f meta).
Proof.
  unfold group_lines. rewrite !occurrences_app.
  rewrite (occurrences_fmap (λ fn, LVar fn (pkgName meta))) by (by intros ?? [=]).
  rewrite !(occurrences_absent (LVar _ _)); [lia|..].
  - by repeat constructor.
  - by apply Forall_fmap, Forall_true.
  - apply Forall_bind, Forall_true. intros typ. simpl.
    rewrite type_lines_emitted. by apply Forall_fmap, Forall_true.
  - by repeat constructor.
Qed.

Lemma group_lines_consts meta n :
  occurrences (LConst n (pkgName meta)) (group_lines meta) = times n (v meta).
Proof.
  unfold group_lines. rewrite !occurrences_app.
  rewrite (occurrences_fmap (λ val, LConst val (pkgName meta))) by (by intros ?? [=]).
  rewrite !(occurrences_absent (LConst _ _)); [lia|..].
  - by repeat constructor.
  - by apply Forall_fmap, Forall_true.
  - apply Forall_bind, Forall_true. intros typ. simpl.
    rewrite type_lines_emitted. by apply Forall_fmap, Forall_true.
  - by repeat constructor.
Qed.

Lemma collect_lists sch pkg pkgs meta :
  collect sch pkg pkgs = Ok meta →
  pkgName meta = name pkg
  ∧ t meta ≡ₚ omap recorded_type (visited sch pkg pkgs)
  ∧ f meta ≡ₚ omap recorded_func (visited sch pkg pkgs)
  ∧ v meta = omap recorded_value (visited sch pkg pkgs).
Proof.
  intros H. apply collect_Ok in H as (-> & -> & -> & ->).
  split_and!; [done|apply sort_Slice_Permutation..|done].
Qed.

(** C1, as amended: in the group of a package, a type declaration that is
    exported, a struct or an identifier, and not skipped is aliased once per
    such declaration: under its own name when the rename table has no entry
    for the name, and under the substituted name, not under its own, when
    the entry for the name has a row for the package. *)
Theorem C1_alias_lines sch pkg pkgs meta n :
  collect sch pkg pkgs = Ok meta →
  (∀ node, recorded_type node = Some n ↔
           ∃ ty, node = Some (TypeSpec n ty) ∧ IsExported n = true ∧ (n ∉ skips)
                 ∧ (ty = StructType ∨ ty = Ident))
  ∧ (alias !! n = None →
     occurrences (LType n (name pkg) n) (group_lines meta)
     = times n (omap recorded_type (visited sch pkg pkgs)))
  ∧ (∀ m, is_Some (alias !! n) → emitted_names (name pkg) n = [m] →
          occurrences (LType m (name pkg) n) (group_lines meta)
          = times n (omap recorded_type (visited sch pkg pkgs))
          ∧ occurrences (LType n (name pkg) n) (group_lines meta) = 0).
Proof.
  intros H. apply collect_lists in H as (Hp & Ht & _ & _). rewrite <- Hp.
  split; [intros node; apply recorded_type_Some|].
  split.
  - intros Hnone. rewrite group_lines_types, (times_Permutation _ _ _ Ht).
    unfold emitted_names. rewrite Hnone, times_cons, decide_True by done.
    unfold times at 2. simpl. lia.
  - intros m Hsome He. rewrite !group_lines_types, (times_Permutation _ _ _ Ht), He.
    destruct (emitted_names_renamed _ _ _ Hsome He) as [-> Hm].
    split.
    + rewrite times_cons, decide_True by done. unfold times at 2. simpl. lia.
    + rewrite times_cons, decide_False; [unfold times at 2; simpl; lia|].
      destruct Hm as [[_ ->]|[_ ->]]; done.
Qed.

(** C4, as amended: in the group of a package, the forwarding binding of a
    name occurs once per function declaration of that name that is exported,
    has no receiver and is not skipped; it does not occur when there is no
    such declaration. *)
Theorem C4_forwarding_bindings sch pkg pkgs meta n :
  collect sch pkg pkgs = Ok meta →
  (∀ node, recorded_func node = Some n ↔
           node = Some (FuncDecl n None) ∧ IsExported n = true ∧ n ∉ skipFuncs)
  ∧ occurrences (LVar n (name pkg)) (group_lines meta)
    = times n (omap recorded_func (visited sch pkg pkgs))
  ∧ (0 < occurrences (LVar n (name pkg)) (group_lines meta) ↔
     Some (FuncDecl n None) ∈ visited sch pkg pkgs
     ∧ IsExported n = true ∧ n ∉ skipFuncs).
Proof.
  intros H. apply collect_lists in H as (Hp & _ & Hf & _). rewrite <- Hp.
  split; [intros node; apply recorded_func_Some|].
  rewrite group_lines_vars, (times_Permutation _ _ _ Hf). split; [done|].
  unfold times. split.
  - intros Hpos. apply (count_occ_In String.eq_dec), list_elem_of_In in Hpos.
    apply list_elem_of_omap in Hpos as (node & Hin & Hrec).
    apply recorded_func_Some in Hrec as (-> & He & Hs). done.
  - intros (Hin & He & Hs).
    apply (count_occ_In String.eq_dec), list_elem_of_In, list_elem_of_omap.
    eexists. split; [done|]. by apply recorded_func_Some.
Qed.

(** C3, as amended: in the group of a package, the constant binding of a
    name occurs once per value declaration whose first name it is, when that
    name is exported and allow-listed; a name that is not allow-listed has no
    constant binding.  Names after the first of a declaration are not
    looked at. *)
Theorem C3_constant_bindings sch pkg pkgs meta n :
  collect sch pkg pkgs = Ok meta →
  (∀ node, recorded_value node = Some n ↔
           ∃ others, node = Some (ValueSpec (n :: others)) ∧ IsExported n = true
                     ∧ n ∈ expectVals)
  ∧ occurrences (LConst n (name pkg)) (group_lines meta)
    = times n (omap recorded_value (visited sch pkg pkgs))
  ∧ (n ∉ expectVals → occurrences (LConst n (name pkg)) (group_lines meta) = 0).
Proof.
  intros H. apply collect_lists in H as (Hp & _ & _ & Hv). rewrite <- Hp.
  split; [intros node; apply recorded_value_Some|].
  rewrite group_lines_consts, Hv. split; [done|].
  intros Hn. apply count_occ_not_In. rewrite <- list_elem_of_In, list_elem_of_omap.
  intros (node & _ & Hrec). apply recorded_value_Some in Hrec as (_ & _ & _ & Hin). done.
Qed.

(** C8, as amended: after the traversal of a package each of the three
    name lists holds one entry per recorded declaration, so a list is free of
    duplicates exactly when no two recorded declarations of its kind share a
    name; the traversal removes no duplicates. *)
Theorem C8_lists_follow_declarations sch pkg pkgs meta :
  collect sch pkg pkgs = Ok meta →
  (t meta ≡ₚ omap recorded_type (visited sch pkg pkgs)
   ∧ f meta ≡ₚ omap recorded_func (visited sch pkg pkgs)
   ∧ v meta ≡ₚ omap recorded_value (visited sch pkg pkgs))
  ∧ (NoDup (t meta) ↔ NoDup (omap recorded_type (visited sch pkg pkgs)))
  ∧ (NoDup (f meta) ↔ NoDup (omap recorded_func (visited sch pkg pkgs)))
  ∧ (NoDup (v meta) ↔ NoDup (omap recorded_value (visited sch pkg pkgs))).
Proof.
  intros H. apply collect_lists in H as (_ & Ht & Hf & Hv).
  split_and!; [done|done|by rewrite Hv|by rewrite Ht|by rewrite Hf|by rewrite Hv].
Qed.


End Groups.

(** ** The proxy structs *)

Section ProxyProperties.
Import Gateway.
Context `{Types}.

(** C9: every forwarding method of the proxy structs does, on every argument
    tuple and in every world, what calling the function value in the
    [Internal] field of the same name with the same arguments does: the same
    results, and no change of its own to the world, the proxy struct
    included. *)
Theorem C9_methods_forward :
  (∀ s : IProofClientStruct,
      forwards (λ '(p0, p1, p2, p3, p4, p5), ComputeProof s p0 p1 p2 p3 p4 p5)
               (ComputeProof_fn (IProofClientStruct_Internal s))
      ∧ forwards (ListConnectedMiners s)
                 (ListConnectedMiners_fn (IProofClientStruct_Internal s))
      ∧ forwards (λ '(p0, p1), ListMinerConnection s p0 p1)
                 (ListMinerConnection_fn (IProofClientStruct_Internal s)))
  ∧ (∀ s : IProofServiceProviderStruct,
      forwards (λ '(p0, p1), ListenProofEvent s p0 p1)
               (ListenProofEvent_fn (IProofServiceProviderStruct_Internal s))
      ∧ forwards (λ '(p0, p1), ResponseProofEvent s p0 p1)
                 (ResponseProofEvent_fn (IProofServiceProviderStruct_Internal s)))
  ∧ (∀ s : IWalletClientStruct,
      forwards (ListWalletInfo s) (ListWalletInfo_fn (IWalletClientStruct_Internal s))
      ∧ forwards (λ '(p0, p1), ListWalletInfoByWallet s p0 p1)
                 (ListWalletInfoByWallet_fn (IWalletClientStruct_Internal s))
      ∧ forwards (λ '(p0, p1, p2), WalletHas s p0 p1 p2)
                 (WalletHas_fn (IWalletClientStruct_Internal s))
      ∧ forwards (λ '(p0, p1, p2, p3, p4), WalletSign s p0 p1 p2 p3 p4)
                 (WalletSign_fn (IWalletClientStruct_Internal s)))
  ∧ (∀ s : IWalletServiceProviderStruct,
      forwards (λ '(p0, p1, p2), AddNewAddress s p0 p1 p2)
               (AddNewAddress_fn (IWalletServiceProviderStruct_Internal s))
      ∧ forwards (λ '(p0, p1), ListenWalletEvent s p0 p1)
                 (ListenWalletEvent_fn (IWalletServiceProviderStruct_Internal s))
      ∧ forwards (λ '(p0, p1, p2), RemoveAddress s p0 p1 p2)
                 (RemoveAddress_fn (IWalletServiceProviderStruct_Internal s))
      ∧ forwards (λ '(p0, p1), ResponseWalletEvent s p0 p1)
                 (ResponseWalletEvent_fn (IWalletServiceProviderStruct_Internal s))
      ∧ forwards (λ '(p0, p1, p2), SupportNewAccount s p0 p1 p2)
                 (SupportNewAccount_fn (IWalletServiceProviderStruct_Internal s)))
  ∧ (∀ s : IMarketClientStruct,
      forwards (λ '(p0, p1, p2, p3, p4, p5), IsUnsealed s p0 p1 p2 p3 p4 p5)
               (IsUnsealed_fn (IMarketClientStruct_Internal s))
      ∧ forwards (ListMarketConnectionsState s)
                 (ListMarketConnectionsState_fn (IMarketClientStruct_Internal s))
      ∧ forwards (λ '(p0, p1, p2, p3, p4, p5, p6),
                    SectorsUnsealPiece s p0 p1 p2 p3 p4 p5 p6)
                 (SectorsUnsealPiece_fn (IMarketClientStruct_Internal s)))
  ∧ (∀ s : IMarketServiceProviderStruct,
      forwards (λ '(p0, p1), ListenMarketEvent s p0 p1)
               (ListenMarketEvent_fn (IMarketServiceProviderStruct_Internal s))
      ∧ forwards (λ '(p0, p1), ResponseMarketEvent s p0 p1)
                 (ResponseMarketEvent_fn (IMarketServiceProviderStruct_Internal s)))
  ∧ (∀ s : IGatewayStruct,
      forwards (Version s) (Version_fn (IGatewayStruct_Internal s))).
Proof.
  split_and!; intros s; split_and?; intros args w;
    repeat match goal with p : (_ * _)%type |- _ => destruct p end;
    cbv [ComputeProof ListConnectedMiners ListMinerConnection ListenProofEvent
         ResponseProofEvent ListWalletInfo ListWalletInfoByWallet WalletHas
         WalletSign AddNewAddress ListenWalletEvent RemoveAddress
         ResponseWalletEvent SupportNewAccount IsUnsealed
         ListMarketConnectionsState SectorsUnsealPiece ListenMarketEvent
         ResponseMarketEvent Version invoke];
    match goal with |- context [match ?fn with Some _ => _ | None => _ end] =>
      destruct fn end; reflexivity.
Qed.

End ProxyProperties.

(** ** Worked examples *)

(** Closes a goal about concrete input by evaluation. *)
Ltac evaluate :=
  first [ vm_compute; reflexivity
        | vm_compute; discriminate
        | apply list_elem_of_In; vm_compute; tauto
        | unfold skips, skipFuncs, expectVals; set_solver ].

Lemma canonical_schedule_valid : valid_schedule canonical_schedule.
Proof. intros A site m. reflexivity. Defined.

Lemma reversed_schedule_valid : valid_schedule reversed_schedule.
Proof. intros A site m. simpl. apply reverse_Permutation. Defined.

(** The market directory: [Foo] is aliased under its own name,
    [WithdrawBalanceParams] under the substituted one. *)
Lemma C1_alias_lines_witness :
  Example.collect canonical_schedule Example.market Example.market_dir
  = Ok Example.market_meta
  ∧ (alias !! "Foo" = None →
     occurrences (LType "Foo" "market" "Foo") (group_lines Example.market_meta)
     = times "Foo" (omap (recorded_type Example.IsExported)
                         (visited canonical_schedule Example.market Example.market_dir)))
  ∧ (∀ m, is_Some (alias !! "WithdrawBalanceParams") →
          emitted_names "market" "WithdrawBalanceParams" = [m] →
          occurrences (LType m "market" "WithdrawBalanceParams")
                      (group_lines Example.market_meta)
          = times "WithdrawBalanceParams"
                  (omap (recorded_type Example.IsExported)
                        (visited canonical_schedule Example.market Example.market_dir))
          ∧ occurrences (LType "WithdrawBalanceParams" "market" "WithdrawBalanceParams")
                        (group_lines Example.market_meta) = 0).
Proof.
  assert (Example.collect canonical_schedule Example.market Example.market_dir
          = Ok Example.market_meta) as Hc by (vm_compute; reflexivity).
  split; [exact Hc|]. split.
  - exact (proj1 (proj2 (C1_alias_lines Example.IsExported canonical_schedule
                           Example.market Example.market_dir Example.market_meta
                           "Foo" Hc))).
  - exact (proj2 (proj2 (C1_alias_lines Example.IsExported canonical_schedule
                           Example.market Example.market_dir Example.market_meta
                           "WithdrawBalanceParams" Hc))).
Defined.

(** A type with a rename-table entry, declared in a package the entry has no
    row for, gets no alias line at all; a type declared in two files of a
    directory gets two. *)
Lemma C1_counterexample :
  (Example.collect canonical_schedule Example.paych Example.unlisted_dir
   = Ok Example.unlisted_meta
   ∧ (Some (TypeSpec "WithdrawBalanceParams" StructType)
      ∈ visited canonical_schedule Example.paych Example.unlisted_dir)
   ∧ Example.IsExported "WithdrawBalanceParams" = true
   ∧ ("WithdrawBalanceParams" ∉ skips)
   ∧ base.filter (λ val, row_pkgName val = "paych")
                 (default [] (alias !! "WithdrawBalanceParams")) = []
   ∧ group_lines Example.unlisted_meta = [LGroup "paych"; LGroupEnd]
   ∧ occurrences (LType "WithdrawBalanceParams" "paych" "WithdrawBalanceParams")
                 (group_lines Example.unlisted_meta) ≠ 1)
  ∧ (Example.collect canonical_schedule Example.market Example.twice_dir
     = Ok Example.twice_meta
     ∧ Example.IsExported "Handle" = true
     ∧ ("Handle" ∉ skips)
     ∧ alias !! "Handle" = None
     ∧ occurrences (LType "Handle" "market" "Handle") (group_lines Example.twice_meta) = 2).
Proof.
  split; split_and!; evaluate.
Qed.

(** The market directory: one binding for the function [Bar]. *)
Lemma C4_forwarding_bindings_witness :
  Example.collect canonical_schedule Example.market Example.market_dir
  = Ok Example.market_meta
  ∧ occurrences (LVar "Bar" "market") (group_lines Example.market_meta)
    = times "Bar" (omap (recorded_func Example.IsExported)
                        (visited canonical_schedule Example.market Example.market_dir)).
Proof.
  assert (Example.collect canonical_schedule Example.market Example.market_dir
          = Ok Example.market_meta) as Hc by (vm_compute; reflexivity).
  split; [exact Hc|].
  exact (proj1 (proj2 (C4_forwarding_bindings Example.IsExported canonical_schedule
                         Example.market Example.market_dir Example.market_meta
                         "Bar" Hc))).
Defined.

(** A function declared in two files of a directory is bound twice; and the
    binding of a name occurs once when a method and a function share it,
    although the method has a receiver. *)
Lemma C4_counterexample :
  (Example.collect canonical_schedule Example.market Example.twice_dir
   = Ok Example.twice_meta
   ∧ (Some (FuncDecl "Open" None)
      ∈ visited canonical_schedule Example.market Example.twice_dir)
   ∧ Example.IsExported "Open" = true
   ∧ ("Open" ∉ skipFuncs)
   ∧ occurrences (LVar "Open" "market") (group_lines Example.twice_meta) = 2)
  ∧ (Example.collect canonical_schedule Example.miner Example.method_dir
     = Ok Example.method_meta
     ∧ (Some (FuncDecl "Validate" (Some mkFieldList))
        ∈ visited canonical_schedule Example.miner Example.method_dir)
     ∧ occurrences (LVar "Validate" "miner") (group_lines Example.method_meta) = 1).
Proof.
  split; split_and!; evaluate.
Qed.

(** The verifreg directory: one binding for [NoAllocationID]. *)
Lemma C3_constant_bindings_witness :
  Example.collect canonical_schedule Example.verifreg Example.verifreg_dir
  = Ok Example.verifreg_meta
  ∧ occurrences (LConst "NoAllocationID" "verifreg") (group_lines Example.verifreg_meta)
    = times "NoAllocationID"
            (omap (recorded_value Example.IsExported)
                  (visited canonical_schedule Example.verifreg Example.verifreg_dir))
  ∧ ("Baz" ∉ expectVals →
     occurrences (LConst "Baz" "verifreg") (group_lines Example.verifreg_meta) = 0).
Proof.
  assert (Example.collect canonical_schedule Example.verifreg Example.verifreg_dir
          = Ok Example.verifreg_meta) as Hc by (vm_compute; reflexivity).
  split; [exact Hc|]. split.
  - exact (proj1 (proj2 (C3_constant_bindings Example.IsExported canonical_schedule
                           Example.verifreg Example.verifreg_dir Example.verifreg_meta
                           "NoAllocationID" Hc))).
  - exact (proj2 (proj2 (C3_constant_bindings Example.IsExported canonical_schedule
                           Example.verifreg Example.verifreg_dir Example.verifreg_meta
                           "Baz" Hc))).
Defined.

(** An allow-listed, exported name that is not the first of its declaration
    gets no binding; the same declaration in two files gets two; and a name
    that is not allow-listed is mentioned by the binding of a function of
    that name in another package. *)
Lemma C3_counterexample :
  (Example.collect canonical_schedule Example.verifreg Example.values_dir
   = Ok Example.values_meta
   ∧ (Some (ValueSpec ["Unset"; "NoAllocationID"])
      ∈ visited canonical_schedule Example.verifreg Example.values_dir)
   ∧ Example.IsExported "NoAllocationID" = true
   ∧ ("NoAllocationID" ∈ expectVals)
   ∧ group_lines Example.values_meta = [LGroup "verifreg"; LGroupEnd])
  ∧ (Example.collect canonical_schedule Example.verifreg Example.values_twice_dir
     = Ok Example.values_twice_meta
     ∧ occurrences (LConst "NoAllocationID" "verifreg")
                   (group_lines Example.values_twice_meta) = 2)
  ∧ (Example.collect canonical_schedule Example.market Example.code_const_dir
     = Ok Example.code_const_meta
     ∧ Example.collect canonical_schedule Example.miner Example.code_func_dir
       = Ok Example.code_func_meta
     ∧ (Some (ValueSpec ["Code"])
        ∈ visited canonical_schedule Example.market Example.code_const_dir)
     ∧ Example.IsExported "Code" = true
     ∧ ("Code" ∉ expectVals)
     ∧ (LVar "Code" "miner" ∈ group_lines Example.code_func_meta)).
Proof.
  split_and!; evaluate.
Qed.

(** The market directory: its lists follow its declarations. *)
Lemma C8_lists_follow_declarations_witness :
  Example.collect canonical_schedule Example.market Example.market_dir
  = Ok Example.market_meta
  ∧ (NoDup (t Example.market_meta) ↔
     NoDup (omap (recorded_type Example.IsExported)
                 (visited canonical_schedule Example.market Example.market_dir))).
Proof.
  assert (Example.collect canonical_schedule Example.market Example.market_dir
          = Ok Example.market_meta) as Hc by (vm_compute; reflexivity).
  split; [exact Hc|].
  exact (proj1 (proj2 (C8_lists_follow_declarations Example.IsExported
                         canonical_schedule Example.market Example.market_dir
                         Example.market_meta Hc))).
Defined.

(** A directory whose two files declare the same type and the same function:
    both names are recorded twice; and a value declared in two files is
    recorded twice. *)
Lemma C8_counterexample :
  Example.collect canonical_schedule Example.market Example.twice_dir
  = Ok Example.twice_meta
  ∧ ¬ NoDup (t Example.twice_meta)
  ∧ ¬ NoDup (f Example.twice_meta)
  ∧ Example.collect canonical_schedule Example.verifreg Example.values_twice_dir
    = Ok Example.values_twice_meta
  ∧ ¬ NoDup (v Example.values_twice_meta).
Proof.
  split_and!; try (vm_compute; reflexivity);
    intros Hnd; apply NoDup_cons in Hnd as [Hnotin _]; apply Hnotin; by left.
Qed.

(** Two runs over the example tree, one ranging over every map in the
    reverse order of the other. *)
Lemma C2_runs_agree_witness :
  valid_schedule canonical_schedule
  ∧ valid_schedule reversed_schedule
  ∧ Example.run canonical_schedule ∅ "types.go"
    = Example.run reversed_schedule ∅ "types.go".
Proof.
  split_and!; [exact canonical_schedule_valid | exact reversed_schedule_valid |].
  exact (proj1 (C2_runs_agree Example.IsExported Example.Version8
                  Example.LatestVersion Example.FindPackageLocation
                  (Example.ParseDir Example.dirs) Example.FmtFile
                  Example.WriteFile_failure canonical_schedule reversed_schedule
                  ∅ "types.go" canonical_schedule_valid reversed_schedule_valid)).
Defined.

(** The tree without the [paych] directory: the run returns the error of the
    parser and writes nothing. *)
Lemma C5_failure_writes_nothing_witness :
  Example.paych ∈ toList canonical_schedule
                         (pendingPkgs Example.Version8 Example.LatestVersion)
  ∧ scan_fails Example.FindPackageLocation (Example.ParseDir Example.dirs_without_paych)
               ∅ Example.paych Example.no_paych_error
  ∧ (Example.run_without_paych canonical_schedule ∅ "types.go").1 = ∅
  ∧ (Example.run_without_paych canonical_schedule ∅ "types.go").2 ≠ Ok ().
Proof.
  assert (Example.paych ∈ toList canonical_schedule
                                 (pendingPkgs Example.Version8 Example.LatestVersion))
    as Hin by evaluate.
  assert (scan_fails Example.FindPackageLocation
                     (Example.ParseDir Example.dirs_without_paych)
                     ∅ Example.paych Example.no_paych_error)
    as Hf by (right; split; vm_compute; reflexivity).
  split_and!; [exact Hin | exact Hf | |].
  - exact (proj1 (C5_failure_writes_nothing Example.IsExported Example.Version8
                    Example.LatestVersion Example.FindPackageLocation
                    (Example.ParseDir Example.dirs_without_paych) Example.FmtFile
                    Example.WriteFile_failure canonical_schedule ∅ "types.go"
                    Example.paych Example.no_paych_error Hin Hf)).
  - exact (proj1 (proj2 (C5_failure_writes_nothing Example.IsExported Example.Version8
                    Example.LatestVersion Example.FindPackageLocation
                    (Example.ParseDir Example.dirs_without_paych) Example.FmtFile
                    Example.WriteFile_failure canonical_schedule ∅ "types.go"
                    Example.paych Example.no_paych_error Hin Hf))).
Defined.

(** A formatter that rejects the buffer of the market package. *)
Lemma C6_format_failure_writes_nothing_witness :
  assemble Example.Version8 Example.LatestVersion [Example.market_meta]
  = Ok Example.market_lines
  ∧ Example.FmtFile_rejecting "" (buffer_of Example.market_lines)
    = ("", Some "format: syntax error")
  ∧ writeFile Example.Version8 Example.LatestVersion Example.FmtFile_rejecting
              Example.WriteFile_failure ∅ "types.go" [Example.market_meta]
    = (∅, Error "format: syntax error").
Proof.
  assert (assemble Example.Version8 Example.LatestVersion [Example.market_meta]
          = Ok Example.market_lines) as Hasm by (vm_compute; reflexivity).
  assert (Example.FmtFile_rejecting "" (buffer_of Example.market_lines)
          = ("", Some "format: syntax error")) as Hfmt by reflexivity.
  split_and!; [exact Hasm | exact Hfmt |].
  exact (proj1 (C6_format_failure_writes_nothing Example.Version8
                  Example.LatestVersion Example.FmtFile_rejecting
                  Example.WriteFile_failure ∅ "types.go" [Example.market_meta]
                  Example.market_lines "" "format: syntax error" Hasm Hfmt)).
Defined.


(** ** The directory-entry filter *)

Section Filter.

Lemma prefix_append s1 s2 :
  String.prefix s1 s2 = true ↔ ∃ post, s2 = s1 +:+ post.
Proof.
  revert s2. induction s1 as [|a s1 IH]; intros s2.
  - destruct s2; simpl; split; eauto.
  - destruct s2 as [|b s2]; simpl.
    + split; [done|]. intros [post Hp]. discriminate Hp.
    + destruct (Ascii.ascii_dec a b) as [->|Hne].
      * rewrite IH. split; intros [post Hp]; exists post; [by rewrite Hp|by injection Hp].
      * split; [done|]. intros [post Hp]. injection Hp as Hab _. by destruct Hne.
Qed.

(** [strings.Contains(s, substr)] holds exactly when [s] is some text, then
    [substr], then some text. *)
Lemma strings_Contains_occurs s substr :
  strings_Contains s substr = true ↔ ∃ pre post, s = pre +:+ substr +:+ post.
Proof.
  unfold strings_Contains. induction s as [|b s IH].
  - destruct substr as [|a substr]; simpl.
    + split; [|done]. intros _. by exists "", "".
    + split; [done|]. intros (pre & post & Hs). by destruct pre.
  - cbn [String.index].
    destruct (String.prefix substr (String b s)) eqn:Hpre.
    + split; [|done]. intros _. apply prefix_append in Hpre as [post Hp].
      by exists "", post.
    + destruct (String.index 0 substr s) as [n|].
      * split; [|done]. intros _. destruct IH as [IH _].
        destruct (IH eq_refl) as (pre & post & ->). by exists (String b pre), post.
      * split; [done|]. intros (pre & post & Hs). destruct pre as [|c pre].
        -- assert (String.prefix substr (String b s) = true) as Hp
             by (apply prefix_append; exists post; exact Hs).
           congruence.
        -- injection Hs as _ Hs. destruct IH as [_ IH].
           enough (false = true) by done. apply IH. by exists pre, post.
Qed.

(** X1: [filter] rejects a file name exactly when the name contains
    [cbor_gen.go], [_test.go], [invariants.go] or [methods.go] somewhere in
    it, not only at its end. *)
Theorem X1_filter_rejects fi_Name :
  filter fi_Name = false ↔
  ∃ pattern pre post,
    pattern ∈ ["cbor_gen.go"; "_test.go"; "invariants.go"; "methods.go"]
    ∧ fi_Name = pre +:+ pattern +:+ post.
Proof.
  unfold filter. split.
  - intros H.
    destruct (strings_Contains fi_Name "cbor_gen.go") eqn:H1;
      [apply strings_Contains_occurs in H1 as (pre & post & ->);
       exists "cbor_gen.go", pre, post; split; [set_solver|done]|].
    destruct (strings_Contains fi_Name "_test.go") eqn:H2;
      [apply strings_Contains_occurs in H2 as (pre & post & ->);
       exists "_test.go", pre, post; split; [set_solver|done]|].
    destruct (strings_Contains fi_Name "invariants.go") eqn:H3;
      [apply strings_Contains_occurs in H3 as (pre & post & ->);
       exists "invariants.go", pre, post; split; [set_solver|done]|].
    destruct (strings_Contains fi_Name "methods.go") eqn:H4;
      [apply strings_Contains_occurs in H4 as (pre & post & ->);
       exists "methods.go", pre, post; split; [set_solver|done]|].
    done.
  - intros (pattern & pre & post & Hin & Hs).
    assert (strings_Contains fi_Name pattern = true) as Hc
      by (apply strings_Contains_occurs; eauto).
    repeat (apply elem_of_cons in Hin as [->|Hin]; [rewrite Hc; by repeat case_match|]).
    by apply elem_of_nil in Hin.
Qed.

End Filter.

(** ** [toList] on any map of packages *)

Section ToList.
Import StrOrder StrOrderFacts.

Lemma toList_sort sch (pkgs : gmap string pendingPkg) :
  toList sch pkgs
  = sort_Slice (λ a b, less (name a) (name b)) (range_of sch ["toList"] pkgs).*2.
Proof. unfold toList. by rewrite foldl_snoc_snd, app_nil_l. Qed.

(** X2: whatever the order in which the map is ranged over, [toList] returns
    the values of the map, each as often as the map holds it, with no name
    before a smaller one; its length is the size of the map. *)
Theorem X2_toList_sorted_values sch (pkgs : gmap string pendingPkg) :
  valid_schedule sch →
  toList sch pkgs ≡ₚ (map_to_list pkgs).*2
  ∧ StronglySorted (λ a b, less (name b) (name a) = false) (toList sch pkgs)
  ∧ length (toList sch pkgs) = size pkgs.
Proof.
  intros Hv. rewrite toList_sort.
  assert (sort_Slice (λ a b, less (name a) (name b)) (range_of sch ["toList"] pkgs).*2
          ≡ₚ (map_to_list pkgs).*2) as Hp
    by (by rewrite sort_Slice_Permutation, (Hv _ _ pkgs)).
  split_and!; [done| |].
  - apply (StronglySorted_merge_sort (notAfter (λ a b, less (name a) (name b)))).
  - by rewrite Hp, length_fmap, length_map_to_list.
Qed.

(** X3: when no two packages of the map have the same name, [toList] returns
    the same slice whatever the order in which the map is ranged over. *)
Theorem X3_toList_order_independent sch1 sch2 (pkgs : gmap string pendingPkg) :
  valid_schedule sch1 → valid_schedule sch2 →
  NoDup (name <$> (map_to_list pkgs).*2) →
  toList sch1 pkgs = toList sch2 pkgs.
Proof.
  intros H1 H2 Hnd. rewrite !toList_sort. apply sort_Slice_key_perm.
  - by rewrite (H1 _ _ pkgs).
  - by rewrite (H1 _ _ pkgs), (H2 _ _ pkgs).
Qed.

End ToList.

(** ** What a traversal can do to the visitor *)

Section VisitorInvariants.
Variable IsExported : string → bool.

Local Abbreviation Visit := (Visit IsExported).
Local Abbreviation Walk := (Walk IsExported).
Local Abbreviation collect := (collect IsExported).
Local Abbreviation recorded := (recorded IsExported).

(** X4: a call of [Visit] that returns leaves the package name alone, keeps
    every name already recorded in its place, and adds at most one name to
    the three lists together. *)
Theorem X4_Visit_only_appends vis node vis' :
  Visit vis node = Ok vis' →
  pkgName vis' = pkgName vis
  ∧ f vis `prefix_of` f vis'
  ∧ t vis `prefix_of` t vis'
  ∧ v vis `prefix_of` v vis'
  ∧ (length (f vis') + length (t vis') + length (v vis')
     ≤ S (length (f vis) + length (t vis) + length (v vis)))%nat.
Proof.
  rewrite Visit_spec. case_decide; [done|]. intros [= <-].
  unfold Gen.recorded. cbn [pkgName f t v omap list_omap].
  split_and!; [done|by eexists..|].
  rewrite !length_app.
  destruct node as [[nm ty|nm recv|[|n0 names]|]|]; cbn [recorded_func recorded_type recorded_value];
    repeat case_match; simpl; lia.
Qed.

(** X5: [ast.Walk] with this visitor panics exactly when the tree holds a
    value declaration without names; otherwise it returns the visitor with
    the names of the recorded declarations of the whole tree appended, nested
    declarations included, in the order of the walk. *)
Theorem X5_Walk_records_in_visit_order vis tree :
  Walk vis tree =
  if decide (Some (ValueSpec []) ∈ visits tree) then Panic
  else Ok (recorded vis (visits tree)).
Proof.
  rewrite Walk_visits. case_decide as Hin.
  - apply foldM_Visit_panic, Exists_exists. by exists (Some (ValueSpec [])).
  - apply foldM_Visit, Forall_forall. intros node Hnode Hn.
    unfold nameless in Hn. by subst node.
Qed.

(** X6: every name [collect] returns went through the tables: a collected
    type name is exported and not in [skips], a collected function name is
    exported and not in [skipFuncs], and a collected value name is exported
    and is [NoAllocationID]. *)
Theorem X6_collected_names_pass_the_tables sch pkg pkgs meta :
  collect sch pkg pkgs = Ok meta →
  (∀ n, n ∈ t meta → IsExported n = true ∧ n ∉ skips)
  ∧ (∀ n, n ∈ f meta → IsExported n = true ∧ n ∉ skipFuncs)
  ∧ (∀ n, n ∈ v meta → IsExported n = true ∧ n = "NoAllocationID").
Proof.
  intros H. apply collect_lists in H as (_ & Ht & Hf & Hv). split_and!; intros n Hn.
  - rewrite Ht in Hn. apply list_elem_of_omap in Hn as (node & _ & Hrec).
    apply recorded_type_Some in Hrec as (ty & _ & He & Hs & _). done.
  - rewrite Hf in Hn. apply list_elem_of_omap in Hn as (node & _ & Hrec).
    apply recorded_func_Some in Hrec as (_ & He & Hs). done.
  - rewrite Hv in Hn. apply list_elem_of_omap in Hn as (node & _ & Hrec).
    apply recorded_value_Some in Hrec as (others & _ & He & Hs).
    split; [done|]. unfold expectVals in Hs. by apply elem_of_singleton in Hs.
Qed.

(** X7: [collect] never returns an error; it panics exactly when one of the
    visited nodes is a value declaration without names, and otherwise returns
    a visitor that carries the name of the package. *)
Theorem X7_collect_outcome sch pkg pkgs :
  (∀ err, collect sch pkg pkgs ≠ Error err)
  ∧ (collect sch pkg pkgs = Panic ↔ Some (ValueSpec []) ∈ visited sch pkg pkgs)
  ∧ (Some (ValueSpec []) ∉ visited sch pkg pkgs →
     ∃ meta, collect sch pkg pkgs = Ok meta ∧ pkgName meta = name pkg).
Proof.
  rewrite collect_spec.
  assert (Exists nameless (visited sch pkg pkgs)
          ↔ Some (ValueSpec []) ∈ visited sch pkg pkgs) as Hex.
  { rewrite Exists_exists. unfold nameless. split.
    - by intros (node & Hin & ->).
    - intros Hin. by exists (Some (ValueSpec [])). }
  case_decide as Hn; rewrite Hex in Hn; split_and!; try done.
  intros _. by eexists.
Qed.

End VisitorInvariants.

(** ** The outcomes of [run] *)

Section RunOutcomes.
Variable IsExported : string → bool.
Variable Version8 : Z.
Variable LatestVersion : Z.
Variable FindPackageLocation : FS → string → string * option error.
Variable ParseDir : FS → string → (string → bool) → gmap string Package * option error.
Variable FmtFile : string → string → string * option error.
Variable WriteFile_failure : FS → string → string → option (error * FS).

Local Abbreviation collect := (collect IsExported).
Local Abbreviation pendingPkgs := (pendingPkgs Version8 LatestVersion).
Local Abbreviation pkgs_by_name := (pkgs_by_name Version8 LatestVersion).
Local Abbreviation scanPkg := (scanPkg IsExported FindPackageLocation ParseDir).
Local Abbreviation run_loop := (run_loop IsExported FindPackageLocation ParseDir).
Local Abbreviation assemble := (assemble Version8 LatestVersion).
Local Abbreviation import_lines := (import_lines Version8 LatestVersion).
Local Abbreviation writeFile :=
  (writeFile Version8 LatestVersion FmtFile WriteFile_failure).
Local Abbreviation run :=
  (run IsExported Version8 LatestVersion FindPackageLocation ParseDir FmtFile
       WriteFile_failure).

Local Abbreviation path_of := (path_of Version8 LatestVersion).

Lemma pendingPkgs_known k :
  k ∈ ["market"; "miner"; "paych"; "verifreg"] →
  path <$> pendingPkgs !! k = Some (path_of k).
Proof.
  intros Hin.
  repeat (apply elem_of_cons in Hin as [->|Hin]; [reflexivity|]).
  by apply elem_of_nil in Hin.
Qed.

Lemma pendingPkgs_unknown k :
  k ∉ ["market"; "miner"; "paych"; "verifreg"] → pendingPkgs !! k = None.
Proof.
  intros Hnot. destruct (pendingPkgs !! k) as [pkg|] eqn:Hk; [|done].
  by apply pendingPkgs_lookup in Hk as [_ Hin].
Qed.

Lemma import_loop ls metas :
  foldM (λ ls meta,
           match pendingPkgs !! pkgName meta with
           | Some pkg => Ok (ls ++ [LImport (path pkg)])
           | None => Panic
           end) ls metas
  = if decide (Forall (λ meta, pkgName meta ∈ ["market"; "miner"; "paych"; "verifreg"])
                      metas)
    then Ok (ls ++ ((λ meta, LImport (path_of (pkgName meta))) <$> metas))
    else Panic.
Proof.
  revert ls. induction metas as [|meta metas IH]; intros ls.
  - cbn [foldM]. case_decide as HF; [by rewrite app_nil_r|]. destruct HF. constructor.
  - cbn [foldM].
    destruct (decide (pkgName meta ∈ ["market"; "miner"; "paych"; "verifreg"])) as [Hin|Hnot].
    + pose proof (pendingPkgs_known _ Hin) as Hk.
      destruct (pendingPkgs !! pkgName meta) as [pkg|]; [|done].
      injection Hk as Hk. simpl. rewrite IH, Hk.
      destruct (decide (Forall _ metas)) as [HF|HF].
      * rewrite decide_True by (by constructor). by rewrite <- app_assoc.
      * rewrite decide_False; [done|]. intros HF'. apply HF. by apply Forall_cons in HF' as [_ ?].
    + rewrite (pendingPkgs_unknown _ Hnot). simpl.
      rewrite decide_False; [done|]. intros HF'. by apply Forall_cons in HF' as [? _].
Qed.


Lemma run_loop_pkgNames sch fs metas0 pkgs metas :
  run_loop sch fs metas0 pkgs = Ok metas →
  pkgName <$> metas = (pkgName <$> metas0) ++ (name <$> pkgs).
Proof.
  intros H. apply run_loop_Ok in H as (scanned & -> & HF).
  rewrite fmap_app. f_equal.
  induction HF as [|pkg vis pkgs scanned Hscan _ IH]; [done|].
  rewrite !fmap_cons, IH. f_equal.
  apply scanPkg_Ok in Hscan as [pkgs' Hc]. by apply collect_Ok in Hc as [-> _].
Qed.

(** X9: when the loop of [run] completes, it has appended one visitor per
    package to the metas it started from, in the order of the packages, each
    carrying the name of its package. *)
Theorem X9_run_loop_one_meta_per_package sch fs metas0 pkgs metas :
  run_loop sch fs metas0 pkgs = Ok metas →
  ∃ scanned,
    metas = metas0 ++ scanned
    ∧ length scanned = length pkgs
    ∧ pkgName <$> scanned = name <$> pkgs.
Proof.
  intros H. pose proof (run_loop_pkgNames _ _ _ _ _ H) as Hn.
  apply run_loop_Ok in H as (scanned & -> & HF).
  exists scanned. split_and!; [done|symmetry; by eapply Forall2_length|].
  rewrite fmap_app in Hn. by apply app_inv_head in Hn.
Qed.

Lemma run_loop_complete sch fs metas0 pkgs metas :
  Forall2 (λ pkg meta, scanPkg sch fs pkg = Ok meta) pkgs metas →
  run_loop sch fs metas0 pkgs = Ok (metas0 ++ metas).
Proof.
  intros HF. revert metas0.
  induction HF as [|pkg meta pkgs metas Hscan _ IH]; intros metas0; simpl.
  - by rewrite app_nil_r.
  - rewrite Hscan. simpl. rewrite IH, <- app_assoc. done.
Qed.

Lemma run_loop_Panic sch fs metas0 pkgs :
  run_loop sch fs metas0 pkgs = Panic → ∃ pkg, pkg ∈ pkgs ∧ scanPkg sch fs pkg = Panic.
Proof.
  revert metas0. induction pkgs as [|pkg pkgs IH]; intros metas0; simpl; [done|].
  destruct (scanPkg sch fs pkg) as [vis| |] eqn:Hscan; simpl.
  - intros H. apply IH in H as (pkg' & Hin & Hp). exists pkg'. split; [by right|done].
  - done.
  - intros _. exists pkg. split; [by left|done].
Qed.

(** X10: [run] panics only in the traversal: when it panics, one of the
    pending packages was resolved and parsed and a visited node of it is a
    value declaration without names.  The lookup of [pendingPkgs] in
    [writeFile] never meets a missing package on the metas [run] builds. *)
Theorem X10_run_panics_only_in_traversal sch fs dst :
  valid_schedule sch →
  (run sch fs dst).2 = Panic →
  ∃ pkg location pkgs,
    pkg ∈ pkgs_by_name
    ∧ FindPackageLocation fs (path pkg) = (location, None)
    ∧ ParseDir fs location filter = (pkgs, None)
    ∧ Some (ValueSpec []) ∈ visited sch pkg pkgs.
Proof.
  intros Hv. unfold Gen.run. rewrite toList_schedule by done.
  destruct (run_loop sch fs [] pkgs_by_name) as [metas|e|] eqn:Hloop.
  - apply run_loop_pkgNames in Hloop. simpl in Hloop.
    unfold Gen.writeFile, Gen.assemble. rewrite (import_lines_by_name _ _ _ Hloop). simpl.
    destruct (FmtFile "" _) as [formatted [e|]]; [done|].
    unfold os_WriteFile. by destruct (WriteFile_failure fs dst formatted) as [[e fs0]|].
  - done.
  - intros _. apply run_loop_Panic in Hloop as (pkg & Hin & Hscan).
    unfold Gen.scanPkg in Hscan.
    destruct (FindPackageLocation fs (path pkg)) as [location [e|]] eqn:Hloc; [done|].
    destruct (ParseDir fs location filter) as [pkgs [e|]] eqn:Hparse; [done|].
    exists pkg, location, pkgs. split_and!; [done..|].
    rewrite collect_spec in Hscan. case_decide as Hex; [|done].
    apply Exists_exists in Hex as (node & Hnode & Hn). unfold nameless in Hn. by subst node.
Qed.

(** X11: when every pending package is resolved, parsed and traversed and
    the formatter accepts the assembled buffer, [run] hands the formatted
    text to [os.WriteFile] for the destination: it succeeds with the
    destination holding that text when the write succeeds, and returns the
    error of the write when it fails. *)
Theorem X11_run_writes_formatted sch fs dst metas formatted :
  valid_schedule sch →
  Forall2 (λ pkg meta, scanPkg sch fs pkg = Ok meta) pkgs_by_name metas →
  FmtFile "" (buffer_of ([LHeader; LImportOpen]
                         ++ (LImport ∘ path <$> pkgs_by_name)
                         ++ [LImportClose]
                         ++ (metas ≫= group_lines))) = (formatted, None) →
  (WriteFile_failure fs dst formatted = None →
   run sch fs dst = (<[dst := formatted]> fs, Ok ()))
  ∧ (∀ err fs', WriteFile_failure fs dst formatted = Some (err, fs') →
                run sch fs dst = (fs', Error err)).
Proof.
  intros Hv HF Hfmt. unfold Gen.run. rewrite toList_schedule by done.
  pose proof (run_loop_complete sch fs [] _ _ HF) as Hloop.
  change ([] ++ metas) with metas in Hloop. rewrite Hloop. apply run_loop_pkgNames in Hloop. simpl in Hloop.
  unfold Gen.writeFile, Gen.assemble. rewrite (import_lines_by_name _ _ _ Hloop). simpl.
  simpl in Hfmt. rewrite Hfmt. unfold os_WriteFile.
  split; [by intros ->|]. intros err fs' Hw. by rewrite Hw.
Qed.

End RunOutcomes.

(** ** The text of the binding lines, and the types without a line *)

Section Lines.

Lemma string_length_app (s1 s2 : string) :
  String.length (s1 +:+ s2) = (String.length s1 + String.length s2)%nat.
Proof. induction s1 as [|a s1 IH]; simpl; [done|by rewrite IH]. Qed.

Lemma string_app_inj_length (s1 s2 r1 r2 : string) :
  String.length s1 = String.length s2 → s1 +:+ r1 = s2 +:+ r2 → s1 = s2.
Proof.
  revert s2. induction s1 as [|a s1 IH]; intros [|b s2] Hlen Heq; simpl in *; try done.
  injection Heq as -> Heq. f_equal. apply IH; [by injection Hlen|done].
Qed.

(** A binding line names its identifier twice, so the text of the line
    determines the identifier. *)
Lemma binding_text_inj (kw p a b : string) :
  kw +:+ a +:+ " = " +:+ p +:+ "." +:+ a +:+ newline
  = kw +:+ b +:+ " = " +:+ p +:+ "." +:+ b +:+ newline →
  a = b.
Proof.
  intros H. apply (inj (String.app kw)) in H.
  pose proof (f_equal String.length H) as Hlen.
  rewrite !string_length_app in Hlen.
  eapply string_app_inj_length; [|exact H]. lia.
Qed.

(** X12: within the group of a package, two forwarding bindings have the
    same text only when they bind the same function, and two constant
    bindings only when they bind the same constant: the text of a line
    determines the name it declares. *)
Theorem X12_binding_text_determines_name (p a b : string) :
  (render_line (LVar a p) = render_line (LVar b p) ↔ a = b)
  ∧ (render_line (LConst a p) = render_line (LConst b p) ↔ a = b).
Proof.
  split; (split; [|by intros ->]); cbn [render_line]; apply binding_text_inj.
Qed.

Lemma emitted_names_nil pkg typ :
  emitted_names pkg typ = [] ↔
  typ = "WithdrawBalanceParams" ∧ pkg ≠ "market" ∧ pkg ≠ "miner".
Proof.
  unfold emitted_names. destruct (alias !! typ) as [vals|] eqn:Hv.
  - apply alias_entry in Hv as [-> ->].
    rewrite !filter_cons, filter_nil. cbn [row_pkgName].
    repeat case_decide; simpl; split; try done; intros (_ & ? & ?); done.
  - split; [done|]. intros (-> & _). vm_compute in Hv. discriminate Hv.
Qed.

(** X13: a collected type gets no alias line at all in the group of its
    package exactly when it is [WithdrawBalanceParams] and the package is
    neither [market] nor [miner]: the rename table has an entry for the name
    and no row for the package, and [writeFile] has no other line for it. *)
Theorem X13_type_without_alias_line meta typ :
  typ ∈ t meta →
  (∀ x, LType x (pkgName meta) typ ∉ group_lines meta) ↔
  typ = "WithdrawBalanceParams" ∧ pkgName meta ≠ "market" ∧ pkgName meta ≠ "miner".
Proof.
  intros Hin. rewrite <- emitted_names_nil.
  assert (0 < times typ (t meta))%nat as Hpos
    by (by apply (count_occ_In String.eq_dec), list_elem_of_In).
  split.
  - intros Hno. destruct (emitted_names (pkgName meta) typ) as [|x names] eqn:He; [done|].
    destruct (Hno x). apply list_elem_of_In, (count_occ_In Line_eq_dec).
    fold (occurrences (LType x (pkgName meta) typ) (group_lines meta)).
    rewrite group_lines_types, He, times_cons, decide_True by done. lia.
  - intros He x Hx. apply list_elem_of_In, (count_occ_In Line_eq_dec) in Hx.
    fold (occurrences (LType x (pkgName meta) typ) (group_lines meta)) in Hx.
    rewrite group_lines_types, He in Hx. unfold times at 2 in Hx. simpl in Hx. lia.
Qed.

End Lines.

(** ** Further worked examples *)

(** The pending packages, ranged over in the reverse order. *)
Lemma X2_toList_sorted_values_witness :
  valid_schedule reversed_schedule
  ∧ toList reversed_schedule (pendingPkgs Example.Version8 Example.LatestVersion)
    ≡ₚ (map_to_list (pendingPkgs Example.Version8 Example.LatestVersion)).*2
  ∧ StronglySorted (λ a b, StrOrder.less (name b) (name a) = false)
      (toList reversed_schedule (pendingPkgs Example.Version8 Example.LatestVersion))
  ∧ length (toList reversed_schedule (pendingPkgs Example.Version8 Example.LatestVersion))
    = size (pendingPkgs Example.Version8 Example.LatestVersion).
Proof.
  split; [exact reversed_schedule_valid|].
  exact (X2_toList_sorted_values reversed_schedule
           (pendingPkgs Example.Version8 Example.LatestVersion) reversed_schedule_valid).
Defined.

Lemma X3_toList_order_independent_witness :
  valid_schedule canonical_schedule
  ∧ valid_schedule reversed_schedule
  ∧ NoDup (name <$> (map_to_list (pendingPkgs Example.Version8 Example.LatestVersion)).*2)
  ∧ toList canonical_schedule (pendingPkgs Example.Version8 Example.LatestVersion)
    = toList reversed_schedule (pendingPkgs Example.Version8 Example.LatestVersion).
Proof.
  assert (NoDup (name <$> (map_to_list
                             (pendingPkgs Example.Version8 Example.LatestVersion)).*2))
    as Hnd by (rewrite pendingPkgs_names; apply NoDup_fst_map_to_list).
  split_and!; [exact canonical_schedule_valid | exact reversed_schedule_valid
               | exact Hnd |].
  exact (X3_toList_order_independent canonical_schedule reversed_schedule
           (pendingPkgs Example.Version8 Example.LatestVersion)
           canonical_schedule_valid reversed_schedule_valid Hnd).
Defined.

(** [Visit] on the declaration [type Foo struct], with [Bar] recorded. *)
Lemma X4_Visit_only_appends_witness :
  Visit Example.IsExported
        {| pkgName := "market"; f := ["Bar"]; t := []; v := [] |}
        (Some (TypeSpec "Foo" StructType))
  = Ok {| pkgName := "market"; f := ["Bar"]; t := ["Foo"]; v := [] |}
  ∧ ["Bar"] `prefix_of` ["Bar"]
  ∧ [] `prefix_of` ["Foo"].
Proof.
  assert (Visit Example.IsExported
                {| pkgName := "market"; f := ["Bar"]; t := []; v := [] |}
                (Some (TypeSpec "Foo" StructType))
          = Ok {| pkgName := "market"; f := ["Bar"]; t := ["Foo"]; v := [] |})
    as Hv by reflexivity.
  split; [exact Hv|].
  pose proof (X4_Visit_only_appends Example.IsExported _ _ _ Hv) as (_ & Hf & Ht & _).
  exact (conj Hf Ht).
Defined.

(** The names collected in the market directory. *)
Lemma X6_collected_names_pass_the_tables_witness :
  Example.collect canonical_schedule Example.market Example.market_dir
  = Ok Example.market_meta
  ∧ ∀ n, n ∈ t Example.market_meta → Example.IsExported n = true ∧ n ∉ skips.
Proof.
  assert (Example.collect canonical_schedule Example.market Example.market_dir
          = Ok Example.market_meta) as Hc by (vm_compute; reflexivity).
  split; [exact Hc|].
  exact (proj1 (X6_collected_names_pass_the_tables Example.IsExported
                  canonical_schedule Example.market Example.market_dir
                  Example.market_meta Hc)).
Defined.

(** The loop of [run] over the market package alone. *)
Lemma X9_run_loop_one_meta_per_package_witness :
  run_loop Example.IsExported Example.FindPackageLocation
           (Example.ParseDir Example.dirs) canonical_schedule ∅ [] [Example.market]
  = Ok [Example.market_meta]
  ∧ ∃ scanned,
      [Example.market_meta] = [] ++ scanned
      ∧ length scanned = length [Example.market]
      ∧ pkgName <$> scanned = name <$> [Example.market].
Proof.
  assert (run_loop Example.IsExported Example.FindPackageLocation
                   (Example.ParseDir Example.dirs) canonical_schedule ∅ []
                   [Example.market]
          = Ok [Example.market_meta]) as Hloop by (vm_compute; reflexivity).
  split; [exact Hloop|].
  exact (X9_run_loop_one_meta_per_package Example.IsExported
           Example.FindPackageLocation (Example.ParseDir Example.dirs)
           canonical_schedule ∅ [] [Example.market] [Example.market_meta] Hloop).
Defined.

(** The run over the tree whose market directory holds a value declaration
    without names. *)
Lemma X10_run_panics_only_in_traversal_witness :
  valid_schedule canonical_schedule
  ∧ (Example.run_with_nameless canonical_schedule ∅ "types.go").2 = Panic
  ∧ ∃ pkg location pkgs,
      pkg ∈ pkgs_by_name Example.Version8 Example.LatestVersion
      ∧ Example.FindPackageLocation ∅ (path pkg) = (location, None)
      ∧ Example.ParseDir Example.dirs_with_nameless ∅ location filter = (pkgs, None)
      ∧ Some (ValueSpec []) ∈ visited canonical_schedule pkg pkgs.
Proof.
  assert ((Example.run_with_nameless canonical_schedule ∅ "types.go").2 = Panic)
    as Hp by (vm_compute; reflexivity).
  split_and!; [exact canonical_schedule_valid | exact Hp |].
  exact (X10_run_panics_only_in_traversal Example.IsExported Example.Version8
           Example.LatestVersion Example.FindPackageLocation
           (Example.ParseDir Example.dirs_with_nameless) Example.FmtFile
           Example.WriteFile_failure canonical_schedule ∅ "types.go"
           canonical_schedule_valid Hp).
Defined.

(** The run over the example tree writes the assembled text. *)
Lemma X11_run_writes_formatted_witness :
  valid_schedule canonical_schedule
  ∧ Forall2 (λ pkg meta,
               scanPkg Example.IsExported Example.FindPackageLocation
                       (Example.ParseDir Example.dirs) canonical_schedule ∅ pkg
               = Ok meta)
            (pkgs_by_name Example.Version8 Example.LatestVersion)
            [Example.market_meta; Example.miner_meta; Example.paych_meta;
             Example.verifreg_meta]
  ∧ Example.WriteFile_failure ∅ "types.go" Example.assembled_text = None
  ∧ Example.run canonical_schedule ∅ "types.go"
    = (<["types.go" := Example.assembled_text]> ∅, Ok ()).
Proof.
  assert (Forall2 (λ pkg meta,
                     scanPkg Example.IsExported Example.FindPackageLocation
                             (Example.ParseDir Example.dirs) canonical_schedule ∅ pkg
                     = Ok meta)
                  (pkgs_by_name Example.Version8 Example.LatestVersion)
                  [Example.market_meta; Example.miner_meta; Example.paych_meta;
                   Example.verifreg_meta]) as HF
    by (repeat constructor; vm_compute; reflexivity).
  split_and!; [exact canonical_schedule_valid | exact HF | reflexivity |].
  exact (proj1 (X11_run_writes_formatted Example.IsExported Example.Version8
                  Example.LatestVersion Example.FindPackageLocation
                  (Example.ParseDir Example.dirs) Example.FmtFile
                  Example.WriteFile_failure canonical_schedule ∅ "types.go"
                  [Example.market_meta; Example.miner_meta; Example.paych_meta;
                   Example.verifreg_meta]
                  Example.assembled_text canonical_schedule_valid HF eq_refl)
               eq_refl).
Defined.

(** [WithdrawBalanceParams] collected in the paych package. *)
Lemma X13_type_without_alias_line_witness :
  "WithdrawBalanceParams" ∈ t Example.unlisted_meta
  ∧ ((∀ x, LType x (pkgName Example.unlisted_meta) "WithdrawBalanceParams"
           ∉ group_lines Example.unlisted_meta) ↔
     "WithdrawBalanceParams" = "WithdrawBalanceParams"
     ∧ pkgName Example.unlisted_meta ≠ "market"
     ∧ pkgName Example.unlisted_meta ≠ "miner").
Proof.
  assert ("WithdrawBalanceParams" ∈ t Example.unlisted_meta) as Hin by (by left).
  split; [exact Hin|].
  exact (X13_type_without_alias_line Example.unlisted_meta "WithdrawBalanceParams" Hin).
Defined.
